(** * The-Second-Mind: the external-data agent

    A shallow embedding of [src/agents/api_selection_agent.py] (class
    [APISelectionAgent]) and the properties of its orchestration logic:
    routing, retry loops, the per-instance result cache and the filter of
    the research feed.

    The program talks to three HTTP services, to a clock and to a memory
    sink.  Those are the environment of the embedding: every effect of the
    code is appended to one trace, and the answers of the outside world are
    read from an oracle that the theorems quantify over. *)

From stdpp Require Import gmap strings list pretty.
From Stdlib Require Import PrimFloat Ascii.

Open Scope string_scope.
Open Scope list_scope.
Open Scope Z_scope.

(** ** Python text

    A Python [str] is modelled by a Rocq [string], one character per code
    point below 256. *)
Module PyStr.

(** [c.lower()] on one code point below 256: the ASCII capitals and the
    Latin-1 capitals (all of U+00C0 .. U+00DE but the multiplication sign)
    move up by 32. *)
Definition lower_char (c : Ascii.ascii) : Ascii.ascii :=
  let n := Ascii.N_of_ascii c in
  if ((65 <=? n) && (n <=? 90) ||
      (192 <=? n) && (n <=? 222) && negb (n =? 215))%N
  then Ascii.ascii_of_N (n + 32) else c.

(** [s.lower()] *)
Fixpoint lower (s : string) : string :=
  match s with
  | EmptyString => EmptyString
  | String c r => String (lower_char c) (lower r)
  end.

(** [s.startswith(p)] *)
Fixpoint startswith (p s : string) : bool :=
  match p, s with
  | EmptyString, _ => true
  | String a p', String b s' => if decide (a = b) then startswith p' s' else false
  | String _ _, EmptyString => false
  end.

(** [needle in hay] on two strings: [needle] occurs in [hay] as a
    contiguous run of characters. *)
Fixpoint contains (needle hay : string) : bool :=
  startswith needle hay ||
  match hay with
  | EmptyString => false
  | String _ r => contains needle r
  end.

(** The characters [str.strip()] removes, below code point 256. *)
Definition isspace (c : Ascii.ascii) : bool :=
  let n := Ascii.N_of_ascii c in
  ((9 <=? n) && (n <=? 13) || (28 <=? n) && (n <=? 32) ||
   (n =? 133) || (n =? 160))%N.

Fixpoint lstrip (s : string) : string :=
  match s with
  | String c r => if isspace c then lstrip r else s
  | EmptyString => EmptyString
  end.

Fixpoint rstrip (s : string) : string :=
  match s with
  | EmptyString => EmptyString
  | String c r =>
      match rstrip r with
      | EmptyString => if isspace c then EmptyString else String c EmptyString
      | r' => String c r'
      end
  end.

(** [s.strip()] *)
Definition strip (s : string) : string := rstrip (lstrip s).

(** [sep.join(parts)] *)
Fixpoint join (sep : string) (parts : list string) : string :=
  match parts with
  | [] => EmptyString
  | [x] => x
  | x :: rest => x +:+ sep +:+ join sep rest
  end.

(** The characters of a string, each as a one-character string: what
    iterating over a [str] yields. *)
Fixpoint chars (s : string) : list string :=
  match s with
  | EmptyString => []
  | String c r => String c EmptyString :: chars r
  end.

End PyStr.

(** ** Python values *)

(** [time.struct_time], the nine fields in their order. *)
Record struct_time := mk_struct_time {
  tm_year : Z; tm_mon : Z; tm_mday : Z;
  tm_hour : Z; tm_min : Z; tm_sec : Z;
  tm_wday : Z; tm_yday : Z; tm_isdst : Z }.

(** The objects the agent handles: what [response.json()] decodes to
    ([None], booleans, integers, floats, text, lists, and dictionaries
    keyed by text in insertion order with no key twice), and
    [struct_time] for the [parsed_date] of a paper. *)
#[local] Set Warnings "-register-all".
Inductive pyval :=
| PNone
| PBool (b : bool)
| PInt (z : Z)
| PFloat (f : float)
| PStr (s : string)
| PList (items : list pyval)
| PDict (fields : list (string * pyval))
| PTime (t : struct_time).

(** The exceptions that can travel through the agent: the class, and the
    text [str(e)] gives (the texts are those of CPython 3.12). *)
Inductive exn_class :=
| RequestException   (* raised by [requests.get] *)
| JSONDecodeError    (* raised by [response.json()] *)
| TypeError
| AttributeError
| KeyError
| ValueError.

Record exn := mk_exn { exn_type : exn_class; exn_str : string }.

(** Outcome of a call: a value, or an exception on its way up. *)
Inductive outcome (A : Type) :=
| Ok (a : A)
| Raise (e : exn).
Arguments Ok {A} a.
Arguments Raise {A} e.

#[global] Instance outcome_ret : MRet outcome := λ A a, Ok a.
#[global] Instance outcome_bind : MBind outcome := λ A B f m,
  match m with
  | Ok a => f a
  | Raise e => Raise e
  end.

Module Py.

(** [type(v).__name__] *)
Definition type_name (v : pyval) : string :=
  match v with
  | PNone => "NoneType"
  | PBool _ => "bool"
  | PInt _ => "int"
  | PFloat _ => "float"
  | PStr _ => "str"
  | PList _ => "list"
  | PDict _ => "dict"
  | PTime _ => "time.struct_time"
  end.

(** The entry of key [k] in a dictionary. *)
Fixpoint lookup_key (k : string) (d : list (string * pyval)) : option pyval :=
  match d with
  | [] => None
  | (k', v) :: rest => if decide (k = k') then Some v else lookup_key k rest
  end.

(** [v.get(k, dflt)]: only a dictionary has the method. *)
Definition get (v : pyval) (k : string) (dflt : pyval) : outcome pyval :=
  match v with
  | PDict d => Ok (default dflt (lookup_key k d))
  | _ => Raise (mk_exn AttributeError
                  ("'" +:+ type_name v +:+ "' object has no attribute 'get'"))
  end.

(** [iter(v)]: the elements a [for] loop or a comprehension walks
    through. *)
Definition iter (v : pyval) : outcome (list pyval) :=
  match v with
  | PList l => Ok l
  | PDict d => Ok (map (λ kv, PStr kv.1) d)
  | PStr s => Ok (map PStr (PyStr.chars s))
  | PTime t => Ok (map PInt [tm_year t; tm_mon t; tm_mday t; tm_hour t;
                             tm_min t; tm_sec t; tm_wday t; tm_yday t;
                             tm_isdst t])
  | PNone | PBool _ | PInt _ | PFloat _ =>
      Raise (mk_exn TypeError ("'" +:+ type_name v +:+ "' object is not iterable"))
  end.

(** [[f(x) for x in v]]: the elements in order, stopping at the first
    exception. *)
Fixpoint map_outcome {A B} (f : A → outcome B) (l : list A) : outcome (list B) :=
  match l with
  | [] => Ok []
  | x :: rest => y ← f x; ys ← map_outcome f rest; Ok (y :: ys)
  end.

Definition comprehension {B} (f : pyval → outcome B) (v : pyval) : outcome (list B) :=
  l ← iter v; map_outcome f l.

(** [x == k] for a text [k]. *)
Definition eq_str (k : string) (x : pyval) : bool :=
  match x with
  | PStr s => bool_decide (s = k)
  | _ => false
  end.

(** [k in v] for a text [k]: key of a dictionary, element of a list,
    substring of a text; numbers and [None] are no containers. *)
Definition contains (k : string) (v : pyval) : outcome bool :=
  match v with
  | PDict d => Ok (bool_decide (is_Some (lookup_key k d)))
  | PList l => Ok (existsb (eq_str k) l)
  | PStr s => Ok (PyStr.contains k s)
  | PTime _ => Ok false
  | PNone | PBool _ | PInt _ | PFloat _ =>
      Raise (mk_exn TypeError
               ("argument of type '" +:+ type_name v +:+ "' is not iterable"))
  end.

(** [v[k]] for a text [k]: a list, a text or a tuple cannot be indexed by
    text. *)
Definition getitem (v : pyval) (k : string) : outcome pyval :=
  match v with
  | PDict d => match lookup_key k d with
               | Some x => Ok x
               | None => Raise (mk_exn KeyError ("'" +:+ k +:+ "'"))
               end
  | PList _ => Raise (mk_exn TypeError
                        "list indices must be integers or slices, not str")
  | PStr _ => Raise (mk_exn TypeError
                       "string indices must be integers, not 'str'")
  | PTime _ => Raise (mk_exn TypeError
                        "tuple indices must be integers or slices, not str")
  | PNone | PBool _ | PInt _ | PFloat _ =>
      Raise (mk_exn TypeError
               ("'" +:+ type_name v +:+ "' object is not subscriptable"))
  end.

(** [range(n)] *)
Definition range (n : Z) : list Z := map Z.of_nat (seq 0 (Z.to_nat n)).

End Py.

(** ** Dates *)

(** [datetime.datetime], without the microsecond and the time zone that the
    format of the feed never sets. *)
Record datetime := mk_datetime {
  year : Z; month : Z; day : Z; hour : Z; minute : Z; second : Z }.

Module Calendar.

Definition is_leap (y : Z) : bool :=
  (y mod 4 =? 0) && (negb (y mod 100 =? 0) || (y mod 400 =? 0)).

Definition days_in_month (y m : Z) : Z :=
  if m =? 2 then (if is_leap y then 29 else 28)
  else if (m =? 4) || (m =? 6) || (m =? 9) || (m =? 11) then 30
  else 31.

(** The constructor [datetime(y, m, d, H, M, S)] with the range checks it
    makes on its arguments. *)
Definition datetime_new (y m d H M S : Z) : outcome datetime :=
  if negb ((1 <=? y) && (y <=? 9999)) then
    Raise (mk_exn ValueError ("year " +:+ pretty y +:+ " is out of range"))
  else if negb ((1 <=? m) && (m <=? 12)) then
    Raise (mk_exn ValueError "month must be in 1..12")
  else if negb ((1 <=? d) && (d <=? days_in_month y m)) then
    Raise (mk_exn ValueError "day is out of range for month")
  else if negb ((0 <=? H) && (H <=? 23)) then
    Raise (mk_exn ValueError "hour must be in 0..23")
  else if negb ((0 <=? M) && (M <=? 59)) then
    Raise (mk_exn ValueError "minute must be in 0..59")
  else if negb ((0 <=? S) && (S <=? 59)) then
    Raise (mk_exn ValueError "second must be in 0..59")
  else Ok (mk_datetime y m d H M S).

(** [time.gmtime(0)]: Thursday 1 January 1970, midnight. *)
Definition gmtime_0 : struct_time := mk_struct_time 1970 1 1 0 0 0 3 1 0.

End Calendar.

(** ** The outside world *)

(** An entry of a parsed feed, as [feedparser] hands it over: each of the
    four keys the agent reads may be missing. *)
Record feed_entry := mk_entry {
  title : option string;
  summary : option string;
  published : option string;
  link : option string }.

(** A call [requests.get(url, params=params)]. *)
Record request := mk_request {
  url : string;
  params : list (string * pyval) }.

(** An HTTP response, kept as the three observations the agent makes of
    it: [response.status_code], the outcome of [response.json()] (an
    exception when the body is not well-formed JSON), and the entries of
    [feedparser.parse(response.text)]. *)
Record response := mk_response {
  status_code : Z;
  json : outcome pyval;
  feed_entries : list feed_entry }.

(** Everything observable the agent does, in the order it does it. *)
Inductive event :=
| Log (line : string)                  (* [memory.log_event(line)] *)
| Store (key : string) (value : pyval) (* [memory.store_data(key, value)] *)
| Get (r : request)                    (* [requests.get(...)] *)
| Sleep (seconds : Z).                 (* [time.sleep(seconds)] *)

(** The answers of the world and of the library functions whose results
    the agent only passes on.
    - [http_get n r]: outcome of the request [r] when [n] requests were
      sent before it (a response, or the exception [requests.get] raises);
    - [now_year n]: calendar year [datetime.datetime.now()] reports when
      [n] events lie behind;
    - [strptime s fmt]: the parser shared by [datetime.strptime] and
      [time.strptime], giving the broken-down time or the text of the
      [ValueError] it raises;
    - [repr v]: the text [repr(v)], used for floats, lists, dictionaries
      and tuples. *)
Record Env := mk_Env {
  http_get : nat → request → outcome response;
  now_year : nat → Z;
  strptime : string → string → string + struct_time;
  repr : pyval → string }.

Definition is_get (e : event) : bool :=
  match e with Get _ => true | _ => false end.

(** Number of requests sent in a trace. *)
Definition sent (tr : list event) : nat := length (filter is_get tr).

(** ** The agent *)
Module APISelectionAgent.

(** The attributes [__init__] sets, but [self.memory]: the sink is part of
    the trace. *)
Record agent := mk_agent {
  max_retries : Z;
  google_api_key : string;
  google_cx : string;
  google_endpoint : string;
  nasa_api_key : string;
  nasa_endpoint : string;
  cache : gmap string pyval }.

(** [APISelectionAgent(memory, max_retries)], with [getenv name] the value
    of the environment variable [name], if set, and [max_retries = None]
    when the argument is left to its default, 2. *)
Definition __init__ (getenv : string → option string) (max_retries : option Z) : agent :=
  {| max_retries := default 2 max_retries;
     google_api_key := default "YOUR_GOOGLE_API_KEY" (getenv "GOOGLE_API_KEY");
     google_cx := default "YOUR_GOOGLE_CX" (getenv "GOOGLE_CX");
     google_endpoint := "https://www.googleapis.com/customsearch/v1";
     nasa_api_key := default "YOUR_NASA_API_KEY" (getenv "NASA_API_KEY");
     nasa_endpoint := "https://api.nasa.gov/planetary/apod";
     cache := ∅ |}.

(** The state a method runs in: the object and the trace so far. *)
Record world := mk_world {
  self : agent;
  trace : list event }.

(** A method body: from a world to an outcome and the world it leaves.
    The effects made before an exception stay. *)
Definition M (A : Type) : Type := world → outcome A * world.

#[global] Instance M_ret : MRet M := λ A a w, (Ok a, w).
#[global] Instance M_bind : MBind M := λ A B f m w,
  match m w with
  | (Ok a, w') => f a w'
  | (Raise e, w') => (Raise e, w')
  end.

Definition lift {A} (o : outcome A) : M A := λ w, (o, w).
Definition emit (e : event) : M unit :=
  λ w, (Ok tt, mk_world (self w) (trace w ++ [e])).
Definition attr {A} (f : agent → A) : M A := λ w, (Ok (f (self w)), w).

(** Modelled from the spec: [MemoryManager.log_event] of
    [memory_manager.py], which is not among the sources; the sink "accepts
    free-text log lines". *)
Definition log_event (line : string) : M unit := emit (Log line).

(** Modelled from the spec: [MemoryManager.store_data] of
    [memory_manager.py], which is not among the sources; the sink offers
    "named key→value artifact storage". *)
Definition store_data (key : string) (value : pyval) : M unit :=
  emit (Store key value).

(** [self.cache[query] = result] *)
Definition cache_set (query : string) (result : pyval) : M unit := λ w,
  let a := self w in
  (Ok tt,
   mk_world (mk_agent (max_retries a) (google_api_key a) (google_cx a)
               (google_endpoint a) (nasa_api_key a) (nasa_endpoint a)
               (<[query := result]> (cache a)))
            (trace w)).

Definition LF : string := String (Ascii.ascii_of_N 10) EmptyString.

Definition DATE_FORMAT : string := "%Y-%m-%dT%H:%M:%SZ".

Section Methods.
Variable E : Env.

(** [requests.get(url, params=params)] *)
Definition requests_get (url : string) (params : list (string * pyval)) : M response :=
  λ w, let r := mk_request url params in
       (http_get E (sent (trace w)) r, mk_world (self w) (trace w ++ [Get r])).

(** [time.sleep(seconds)] *)
Definition sleep (seconds : Z) : M unit := emit (Sleep seconds).

(** [datetime.datetime.now().year] *)
Definition current_year : M Z := λ w, (Ok (now_year E (length (trace w))), w).

(** [str(v)], which is also what an f-string does to [{v}]. *)
Definition str (v : pyval) : string :=
  match v with
  | PStr s => s
  | PNone => "None"
  | PBool true => "True"
  | PBool false => "False"
  | PInt z => pretty z
  | PFloat _ | PList _ | PDict _ | PTime _ => repr E v
  end.

(** [time.strptime(s, fmt)] *)
Definition time_strptime (s fmt : string) : outcome struct_time :=
  match strptime E s fmt with
  | inr t => Ok t
  | inl msg => Raise (mk_exn ValueError msg)
  end.

(** [datetime.datetime.strptime(s, fmt)]: the shared parser, then the
    constructor on the first six fields. *)
Definition datetime_strptime (s fmt : string) : outcome datetime :=
  t ← time_strptime s fmt;
  Calendar.datetime_new (tm_year t) (tm_mon t) (tm_mday t)
                        (tm_hour t) (tm_min t) (tm_sec t).

(** The [for attempt in range(self.max_retries)] loop of
    [_fetch_from_google] over the attempts still to make, and the [return]
    that follows the loop. *)
Fixpoint google_attempts (params : list (string * pyval)) (attempts : list Z) : M string :=
  match attempts with
  | attempt :: rest =>
      endpoint ← attr google_endpoint;
      response ← requests_get endpoint params;
      if decide (status_code response = 200) then
        search_results ← lift (json response);
        has_items ← lift (Py.contains "items" search_results);
        if has_items : bool then
          top_results ← lift (Py.getitem search_results "items");
          urls ← lift (Py.comprehension (λ res, Py.get res "link" PNone) top_results);
          store_data "external_urls" (PList urls);;
          blocks ← lift (Py.comprehension
            (λ res, t ← Py.get res "title" PNone;
                    l ← Py.get res "link" PNone;
                    s ← Py.get res "snippet" PNone;
                    Ok ("Title: " +:+ str t +:+ LF +:+ "Link: " +:+ str l +:+ LF +:+
                        "Snippet: " +:+ str s +:+ LF))
            top_results);
          mret (PyStr.join LF blocks)
        else
          mret "No web results found."
      else
        log_event ("[APISelectionAgent] Google API attempt " +:+ pretty (attempt + 1) +:+
                   " failed with status " +:+ pretty (status_code response));;
        sleep 1;;
        google_attempts params rest
  | [] =>
      n ← attr max_retries;
      mret ("Error: Google Search API request failed after " +:+ pretty n +:+ " attempts.")
  end.

Definition _fetch_from_google (query : string) : M string :=
  log_event "[APISelectionAgent] Querying Google Custom Search API.";;
  key ← attr google_api_key;
  cx ← attr google_cx;
  let params := [("q", PStr query); ("key", PStr key); ("cx", PStr cx); ("num", PInt 5)] in
  n ← attr max_retries;
  google_attempts params (Py.range n).

(** The loop of [_fetch_from_nasa] and the [return] after it. *)
Fixpoint nasa_attempts (params : list (string * pyval)) (attempts : list Z) : M string :=
  match attempts with
  | attempt :: rest =>
      endpoint ← attr nasa_endpoint;
      response ← requests_get endpoint params;
      if decide (status_code response = 200) then
        data ← lift (json response);
        title ← lift (Py.get data "title" (PStr "No title provided."));
        explanation ← lift (Py.get data "explanation" (PStr "No explanation available."));
        mret ("NASA APOD" +:+ LF +:+ "Title: " +:+ str title +:+ LF +:+
              "Explanation: " +:+ str explanation +:+ LF)
      else
        log_event ("[APISelectionAgent] NASA API attempt " +:+ pretty (attempt + 1) +:+
                   " failed with status " +:+ pretty (status_code response));;
        sleep 1;;
        nasa_attempts params rest
  | [] =>
      n ← attr max_retries;
      mret ("Error: NASA API request failed after " +:+ pretty n +:+ " attempts.")
  end.

Definition _fetch_from_nasa (query : string) : M string :=
  log_event "[APISelectionAgent] Querying NASA API (APOD).";;
  key ← attr nasa_api_key;
  let params := [("api_key", PStr key); ("hd", PBool true)] in
  n ← attr max_retries;
  nasa_attempts params (Py.range n).

(** The retry loop of [_fetch_from_arxiv]: [Some response] when the loop
    is left by [break], [None] when it runs out and its [else] branch is
    taken. *)
Fixpoint arxiv_attempts (url : string) (params : list (string * pyval))
    (attempts : list Z) : M (option response) :=
  match attempts with
  | attempt :: rest =>
      response ← requests_get url params;
      if decide (status_code response = 200) then
        mret (Some response)
      else
        log_event ("[APISelectionAgent] arXiv API attempt " +:+ pretty (attempt + 1) +:+
                   " failed with status " +:+ pretty (status_code response));;
        sleep 1;;
        arxiv_attempts url params rest
  | [] =>
      log_event "[APISelectionAgent] arXiv API request failed after retries";;
      mret None
  end.

(** The [for entry in feed.entries] loop of [_fetch_from_arxiv], with the
    list [papers] built so far. *)
Fixpoint arxiv_entries (threshold_year : Z) (entries : list feed_entry)
    (papers : list pyval) : M (list pyval) :=
  match entries with
  | entry :: rest =>
      let published_str := default "" (published entry) in
      '(published_date, published_year) ←
        match datetime_strptime published_str DATE_FORMAT
        return M (option datetime * Z) with
        | Ok published_date => mret (Some published_date, year published_date)
        | Raise e =>
            log_event ("[APISelectionAgent] Error parsing published date '" +:+
                       published_str +:+ "': " +:+ exn_str e);;
            mret (None, 0)
        end;
      if decide (published_year >= threshold_year) then
        parsed_date ←
          match published_date : option datetime with
          | Some _ => lift (time_strptime published_str DATE_FORMAT)
          | None => mret Calendar.gmtime_0
          end;
        let pointer := PDict [
          ("title", PStr (PyStr.strip (default "No Title" (title entry))));
          ("summary", PStr (PyStr.strip (default "No summary available." (summary entry))));
          ("year", PInt published_year);
          ("published", PStr published_str);
          ("link", PStr (default "" (link entry)));
          ("parsed_date", PTime parsed_date) ] in
        arxiv_entries threshold_year rest (papers ++ [pointer])
      else
        arxiv_entries threshold_year rest papers
  | [] => mret papers
  end.

Definition _fetch_from_arxiv (query : string) : M (list pyval) :=
  log_event "[APISelectionAgent] Querying arXiv API for research papers.";;
  let url := "http://export.arxiv.org/api/query" in
  current_year ← current_year;
  let threshold_year := current_year - 5 in
  let params := [("search_query", PStr ("all:" +:+ query)); ("start", PInt 0);
                 ("max_results", PInt 10); ("sortBy", PStr "submittedDate");
                 ("sortOrder", PStr "descending")] in
  n ← attr max_retries;
  fetched ← arxiv_attempts url params (Py.range n);
  match fetched with
  | None => mret []
  | Some response => arxiv_entries threshold_year (feed_entries response) []
  end.

Definition space_keywords : list string :=
  ["nasa"; "space"; "astronomy"; "planet"; "cosmos"; "asteroid"; "galaxy"].

(** The test of line 33:
    [any(keyword in query.lower() for keyword in space_keywords)]. *)
Definition is_space_query (query : string) : bool :=
  existsb (λ keyword, PyStr.contains keyword (PyStr.lower query)) space_keywords.

Definition fetch_external_data (query : string) : M pyval :=
  log_event ("[APISelectionAgent] Processing external data for: '" +:+ query +:+ "'");;
  cache_now ← attr cache;
  match cache_now !! query with
  | Some cached_data =>
      log_event "[APISelectionAgent] Cache hit! Returning cached data.";;
      store_data "external_data" cached_data;;
      mret cached_data
  | None =>
      data ← (if is_space_query query
              then _fetch_from_nasa query
              else _fetch_from_google query);
      research_data ← _fetch_from_arxiv query;
      log_event ("[APISelectionAgent] Found " +:+ pretty (Z.of_nat (length research_data)) +:+
                 " advancements from arXiv.");;
      let result := PDict [("summary", PStr data);
                           ("recent_advancements", PList research_data)] in
      cache_set query result;;
      log_event "[APISelectionAgent] Cached the new result.";;
      store_data "external_data" result;;
      mret result
  end.

End Methods.
End APISelectionAgent.

(** ** Reading a trace *)
Import APISelectionAgent.

(** The three source adapters. *)
Inductive adapter := Google | Nasa | Arxiv.

#[global] Instance adapter_eq_dec : EqDecision adapter.
Proof. solve_decision. Defined.

(** The line each adapter logs first, before anything else it does. *)
Definition entry_line (a : adapter) : string :=
  match a with
  | Google => "[APISelectionAgent] Querying Google Custom Search API."
  | Nasa => "[APISelectionAgent] Querying NASA API (APOD)."
  | Arxiv => "[APISelectionAgent] Querying arXiv API for research papers."
  end.

Definition is_call (a : adapter) (e : event) : bool :=
  match e with
  | Log line => bool_decide (line = entry_line a)
  | _ => false
  end.

(** Number of invocations of adapter [a] a trace shows. *)
Definition calls (a : adapter) (tr : list event) : nat :=
  length (filter (is_call a) tr).

(** An event that is the entry of no adapter. *)
Definition quiet (e : event) : Prop := ∀ a, is_call a e = false.

(** What a call added to the trace. *)
Definition new_events (w w' : world) : list event :=
  drop (length (trace w)) (trace w').

(** [w'] is [w] with the events [d] appended and the object untouched. *)
Definition grows (w w' : world) (d : list event) : Prop :=
  self w' = self w ∧ trace w' = trace w ++ d.

(** A method body that leaves the object alone and adds only events
    satisfying [P]. *)
Definition emits {A} (P : event → Prop) (m : M A) : Prop :=
  ∀ w, ∃ d, grows w (m w).2 d ∧ Forall P d.

(** The summary adapter the router picks for a query. *)
Definition summary_adapter (query : string) : adapter :=
  if is_space_query query then Nasa else Google.

(** The body of an adapter: its entry line, then quiet events. *)
Definition adapter_shape {A} (a : adapter) (m : M A) : Prop :=
  ∀ w, ∃ d, grows w (m w).2 (Log (entry_line a) :: d) ∧ Forall quiet d.


(** ** Notions the properties are stated with *)

(** The first line [fetch_external_data] logs. *)
Definition processing_line (query : string) : string :=
  "[APISelectionAgent] Processing external data for: '" +:+ query +:+ "'".

(** The three events of a cache hit. *)
Definition hit_events (query : string) (cached_data : pyval) : list event :=
  [ Log (processing_line query);
    Log "[APISelectionAgent] Cache hit! Returning cached data.";
    Store "external_data" cached_data ].

(** The composite result of a summary text and a list of papers. *)
Definition composite (data : string) (research_data : list pyval) : pyval :=
  PDict [("summary", PStr data); ("recent_advancements", PList research_data)].

(** The object with another cache. *)
Definition with_cache (a : agent) (c : gmap string pyval) : agent :=
  mk_agent (max_retries a) (google_api_key a) (google_cx a) (google_endpoint a)
           (nasa_api_key a) (nasa_endpoint a) c.

(** The summary adapter of lines 33-36, as a method body. *)
Definition summary_call (E : Env) (query : string) : M string :=
  match summary_adapter query with
  | Nasa => _fetch_from_nasa E query
  | _ => _fetch_from_google E query
  end.

(** The events that end a cache miss, once both adapters have returned. *)
Definition closing_events (data : string) (research_data : list pyval) : list event :=
  [ Log ("[APISelectionAgent] Found " +:+ pretty (Z.of_nat (length research_data)) +:+
         " advancements from arXiv.");
    Log "[APISelectionAgent] Cached the new result.";
    Store "external_data" (composite data research_data) ].

(** A paper record: a dictionary of exactly the six fields, in the order
    of the source. *)
Definition is_paper (v : pyval) : Prop :=
  ∃ t s y p l d,
    v = PDict [("title", PStr t); ("summary", PStr s); ("year", PInt y);
               ("published", PStr p); ("link", PStr l); ("parsed_date", PTime d)].

(** A composite result: a dictionary of exactly the two fields, a text
    under ["summary"] and a list of paper records under
    ["recent_advancements"]. *)
Definition is_composite (v : pyval) : Prop :=
  ∃ data papers, v = composite data papers ∧ Forall is_paper papers.

(** The worlds an agent can be in: freshly constructed (whatever the sink
    holds already), after any of its methods has run, or after another
    user of the sink has written to it. *)
Inductive reachable (E : Env) : world → Prop :=
| reach_init getenv n tr :
    reachable E (mk_world (__init__ getenv n) tr)
| reach_fetch q w :
    reachable E w → reachable E (fetch_external_data E q w).2
| reach_google q w :
    reachable E w → reachable E (_fetch_from_google E q w).2
| reach_nasa q w :
    reachable E w → reachable E (_fetch_from_nasa E q w).2
| reach_arxiv q w :
    reachable E w → reachable E (_fetch_from_arxiv E q w).2
| reach_sink e w :
    reachable E w → reachable E (mk_world (self w) (trace w ++ [e])).

(** The world in which the adapters of a cache miss start. *)
Definition after_processing (q : string) (w : world) : world :=
  mk_world (self w) (trace w ++ [Log (processing_line q)]).


(** The request each adapter sends, for an object and a query. *)
Definition google_request (a : agent) (query : string) : request :=
  mk_request (google_endpoint a)
    [("q", PStr query); ("key", PStr (google_api_key a));
     ("cx", PStr (google_cx a)); ("num", PInt 5)].

Definition nasa_request (a : agent) : request :=
  mk_request (nasa_endpoint a) [("api_key", PStr (nasa_api_key a)); ("hd", PBool true)].

Definition arxiv_request (query : string) : request :=
  mk_request "http://export.arxiv.org/api/query"
    [("search_query", PStr ("all:" +:+ query)); ("start", PInt 0);
     ("max_results", PInt 10); ("sortBy", PStr "submittedDate");
     ("sortOrder", PStr "descending")].

(** Each of the next [n] sendings of [r], when [n0] requests were sent
    before, is answered with a status other than 200. *)
Definition all_fail (E : Env) (n0 : nat) (r : request) (n : nat) : Prop :=
  ∀ i, (i < n)%nat →
       ∃ resp, http_get E (n0 + i) r = Ok resp ∧ status_code resp ≠ 200.

(** The [k] sendings of [r] before the one numbered [n0 + k] fail, and that
    one is answered by [resp] with status 200. *)
Definition succeeds_at (E : Env) (n0 : nat) (r : request) (k : nat) (resp : response) : Prop :=
  all_fail E n0 r k ∧ http_get E (n0 + k) r = Ok resp ∧ status_code resp = 200.

(** The events of failed attempts: the request, a log line, and a sleep of
    one second, once per line. *)
Definition failed_rounds (r : request) (lines : list string) : list event :=
  flat_map (λ line, [Get r; Log line; Sleep 1]) lines.

(** ** The feed, as the recency filter sees it *)

(** The [published] text of an entry read by [datetime.strptime] against
    the format of the feed: [None] when it does not parse. *)
Definition published_date (E : Env) (entry : feed_entry) : option datetime :=
  match datetime_strptime E (default "" (published entry)) DATE_FORMAT with
  | Ok d => Some d
  | Raise _ => None
  end.

(** The year the adapter compares: 0 stands for a text that does not
    parse. *)
Definition published_year (E : Env) (entry : feed_entry) : Z :=
  match published_date E entry with
  | Some d => year d
  | None => 0
  end.

(** An entry whose [published] text parses, with a year not before
    [threshold_year]. *)
Definition is_recent (E : Env) (threshold_year : Z) (entry : feed_entry) : bool :=
  match published_date E entry with
  | Some d => bool_decide (threshold_year ≤ year d)
  | None => false
  end.

(** The [parsed_date] of a paper: the text read by [time.strptime] when
    [datetime.strptime] accepted it, the epoch otherwise. *)
Definition parsed_date_of (E : Env) (entry : feed_entry) : struct_time :=
  match published_date E entry, strptime E (default "" (published entry)) DATE_FORMAT with
  | Some _, inr t => t
  | _, _ => Calendar.gmtime_0
  end.

(** The paper record of an entry. *)
Definition paper_of (E : Env) (entry : feed_entry) : pyval :=
  PDict [
    ("title", PStr (PyStr.strip (default "No Title" (title entry))));
    ("summary", PStr (PyStr.strip (default "No summary available." (summary entry))));
    ("year", PInt (published_year E entry));
    ("published", PStr (default "" (published entry)));
    ("link", PStr (default "" (link entry)));
    ("parsed_date", PTime (parsed_date_of E entry)) ].

(** Every cached value is a composite result. *)
Definition cache_wf (a : agent) : Prop :=
  ∀ q v, cache a !! q = Some v → is_composite v.

(** ** The web-search answer, as the adapter reads it *)

(** A dictionary. *)
Definition is_dict (v : pyval) : Prop := ∃ fields, v = PDict fields.

(** The body of [resp] decodes to a dictionary with an ["items"] member
    that can be walked through and holds dictionaries only; [urls] are
    their ["link"] members in order, [None] where there is none. *)
Definition has_item_links (resp : response) (urls : list pyval) : Prop :=
  ∃ fields top items,
    json resp = Ok (PDict fields)
    ∧ Py.lookup_key "items" fields = Some top
    ∧ Py.iter top = Ok items
    ∧ Forall2 (λ item u, ∃ f, item = PDict f ∧ u = default PNone (Py.lookup_key "link" f))
              items urls.

(** A body the web-search adapter is written for: a JSON object with no
    ["items"] member, or with a list of objects under it. *)
Definition well_shaped (resp : response) : Prop :=
  ∃ fields,
    json resp = Ok (PDict fields)
    ∧ (Py.lookup_key "items" fields = None
       ∨ ∃ items, Py.lookup_key "items" fields = Some (PList items)
                  ∧ Forall is_dict items).

(** The [k] sendings of [r] before the one numbered [n0 + k] fail, and
    that one raises [e]. *)
Definition raises_at (E : Env) (n0 : nat) (r : request) (k : nat) (e : exn) : Prop :=
  all_fail E n0 r k ∧ http_get E (n0 + k) r = Raise e.

(** The artifacts a trace stores in the sink, in order. *)
Definition stores (tr : list event) : list (string * pyval) :=
  flat_map (λ e, match e with Store key value => [(key, value)] | _ => [] end) tr.

(** Lines 57-60 of [_fetch_from_google] without their effects: the values
    of [top_results] and [urls] for a response of status 200, [None] when
    its body has no ["items"]. *)
Definition google_links (resp : response) : outcome (option (pyval * list pyval)) :=
  search_results ← json resp;
  has_items ← Py.contains "items" search_results;
  if has_items : bool then
    top_results ← Py.getitem search_results "items";
    urls ← Py.comprehension (λ res, Py.get res "link" PNone) top_results;
    Ok (Some (top_results, urls))
  else Ok None.

(** The text block of one search result (lines 62-65). *)
Definition google_block (E : Env) (res : pyval) : outcome string :=
  t ← Py.get res "title" PNone;
  l ← Py.get res "link" PNone;
  s ← Py.get res "snippet" PNone;
  Ok ("Title: " +:+ str E t +:+ LF +:+ "Link: " +:+ str E l +:+ LF +:+
      "Snippet: " +:+ str E s +:+ LF).

(** What [_fetch_from_google] does with a response of status 200, from
    the world in which the response arrived. *)
Definition google_digest (E : Env) (resp : response) (w : world) : outcome string * world :=
  match google_links resp with
  | Raise e => (Raise e, w)
  | Ok None => (Ok "No web results found.", w)
  | Ok (Some (top_results, urls)) =>
      let w' := mk_world (self w) (trace w ++ [Store "external_urls" (PList urls)]) in
      match Py.comprehension (google_block E) top_results with
      | Ok blocks => (Ok (PyStr.join LF blocks), w')
      | Raise e => (Raise e, w')
      end
  end.

(** A series of calls of [fetch_external_data], whatever their outcomes. *)
Fixpoint fetch_all (E : Env) (queries : list string) (w : world) : world :=
  match queries with
  | [] => w
  | q :: rest => fetch_all E rest (fetch_external_data E q w).2
  end.

(** ** Scenarios

    The theorems hold for every environment. To run the agent, and to
    have inputs on which the hypotheses of the theorems hold, the
    scenarios below fix one: scripted answers of the network, the clock
    at 2025, and for [strptime] the parser of CPython on the one format
    the agent passes. *)
Module Strptime.

(** A backtracking parser: the ways to read a value off the front of a
    text, in the order a regular expression tries them. *)
Definition parser (A : Type) : Type := string → list (A * string).

Definition ret {A} (a : A) : parser A := λ s, [(a, s)].

Definition bind {A B} (p : parser A) (f : A → parser B) : parser B :=
  λ s, flat_map (λ ar, f ar.1 ar.2) (p s).

Definition alt {A} (p q : parser A) : parser A := λ s, p s ++ q s.

(** One decimal digit whose value satisfies [ok]. *)
Definition digit (ok : Z → bool) : parser Z := λ s,
  match s with
  | String c r =>
      let n := Z.of_N (N_of_ascii c) - 48 in
      if (0 <=? n) && (n <=? 9) && ok n then [(n, r)] else []
  | EmptyString => []
  end.

(** The character [c], in either case (the expression is compiled with
    [re.IGNORECASE]). *)
Definition char (c : ascii) : parser unit := λ s,
  match s with
  | String c' r =>
      if decide (PyStr.lower_char c' = PyStr.lower_char c) then [(tt, r)] else []
  | EmptyString => []
  end.

Definition any (n : Z) : bool := true.
Definition between (lo hi n : Z) : bool := (lo <=? n) && (n <=? hi).

Definition two (ok1 ok2 : Z → bool) : parser Z :=
  bind (digit ok1) (λ a, bind (digit ok2) (λ b, ret (10 * a + b))).

(** The directives, as [_strptime.TimeRE] spells them. *)
Definition dir_Y : parser Z :=                       (* \d\d\d\d *)
  bind (digit any) (λ a, bind (digit any) (λ b, bind (digit any) (λ c,
  bind (digit any) (λ d, ret (1000 * a + 100 * b + 10 * c + d))))).
Definition dir_m : parser Z :=                       (* 1[0-2]|0[1-9]|[1-9] *)
  alt (two (between 1 1) (between 0 2))
 (alt (two (between 0 0) (between 1 9))
      (digit (between 1 9))).
Definition dir_d : parser Z :=                       (* 3[0-1]|[1-2]\d|0[1-9]|[1-9]| [1-9] *)
  alt (two (between 3 3) (between 0 1))
 (alt (two (between 1 2) any)
 (alt (two (between 0 0) (between 1 9))
 (alt (digit (between 1 9))
      (bind (char " ") (λ _, digit (between 1 9)))))).
Definition dir_H : parser Z :=                       (* 2[0-3]|[0-1]\d|\d *)
  alt (two (between 2 2) (between 0 3))
 (alt (two (between 0 1) any)
      (digit any)).
Definition dir_M : parser Z :=                       (* [0-5]\d|\d *)
  alt (two (between 0 5) any) (digit any).
Definition dir_S : parser Z :=                       (* 6[0-1]|[0-5]\d|\d *)
  alt (two (between 6 6) (between 0 1))
 (alt (two (between 0 5) any)
      (digit any)).

(** The expression of ["%Y-%m-%dT%H:%M:%SZ"]. *)
Definition iso : parser (Z * Z * Z * Z * Z * Z) :=
  bind dir_Y (λ year, bind (char "-") (λ _,
  bind dir_m (λ month, bind (char "-") (λ _,
  bind dir_d (λ day, bind (char "T") (λ _,
  bind dir_H (λ hour, bind (char ":") (λ _,
  bind dir_M (λ minute, bind (char ":") (λ _,
  bind dir_S (λ second, bind (char "Z") (λ _,
  ret (year, month, day, hour, minute, second))))))))))))).

Definition days_before_year (y : Z) : Z :=
  (y - 1) * 365 + (y - 1) / 4 - (y - 1) / 100 + (y - 1) / 400.

(** Days of the year [y] before its month [m]. *)
Fixpoint days_before_month (y : Z) (m : nat) : Z :=
  match m with
  | O | 1%nat => 0
  | S m' => days_before_month y m' + Calendar.days_in_month y (Z.of_nat m')
  end.

(** [date(y, m, d).toordinal()] *)
Definition toordinal (y m d : Z) : Z :=
  days_before_year y + days_before_month y (Z.to_nat m) + d.

(** [_strptime(s, "%Y-%m-%dT%H:%M:%SZ")[0]]: the first match of the
    expression must end the text, and the date must exist for the week
    day and the day of the year to be computed. The texts of the errors
    are those of CPython for a text without quotes or unprintable
    characters. *)
Definition parse_iso (s : string) : string + struct_time :=
  match iso s with
  | [] => inl ("time data '" +:+ s +:+ "' does not match format '" +:+
               DATE_FORMAT +:+ "'")
  | ((year, month, day, hour, minute, second), rest) :: _ =>
      if decide (rest = EmptyString) then
        match Calendar.datetime_new year month day 0 0 0 with
        | Raise e => inl (exn_str e)
        | Ok _ =>
            inr (mk_struct_time year month day hour minute second
                   ((toordinal year month day + 6) mod 7)
                   (toordinal year month day - toordinal year 1 1 + 1)
                   (-1))
        end
      else inl ("unconverted data remains: " +:+ rest)
  end.

Definition strptime (s fmt : string) : string + struct_time :=
  if decide (fmt = DATE_FORMAT) then parse_iso s
  else inl "format not used by the agent".

End Strptime.

Module Scenario.

(** An answer "503 Service Unavailable", whose body is no JSON. *)
Definition unavailable : response :=
  mk_response 503
    (Raise (mk_exn JSONDecodeError "Expecting value: line 1 column 1 (char 0)")) [].

(** The network answers its n-th request with the n-th line of the
    script, and with 503 once the script is over. No scenario formats a
    float or a container, so [repr] is never consulted. *)
Definition scripted (script : list response) : Env :=
  mk_Env (λ n _, Ok (default unavailable (script !! n)))
         (λ _, 2025)
         Strptime.strptime
         (λ _, EmptyString).

(** A fresh agent with the defaults of [__init__]: two attempts, no
    credentials in the environment, an empty sink. *)
Definition fresh : world := mk_world (__init__ (λ _, None) None) [].

(** Two search results, the second without a link. *)
Definition search_results : response :=
  mk_response 200
    (Ok (PDict [
       ("kind", PStr "customsearch#search");
       ("items", PList [
          PDict [("title", PStr "Neapolitan pizza");
                 ("link", PStr "https://example.org/pizza");
                 ("snippet", PStr "Flour, water, salt, yeast.")];
          PDict [("title", PStr "Pizza dough");
                 ("snippet", PStr "Rest it overnight.")] ]) ]))
    [].

(** A search answer with an empty list of results. *)
Definition search_nothing : response :=
  mk_response 200 (Ok (PDict [("items", PList [])])) [].

(** A search answer of status 200 whose body is no JSON. *)
Definition search_garbled : response :=
  mk_response 200
    (Raise (mk_exn JSONDecodeError "Expecting value: line 1 column 1 (char 0)")) [].

(** The astronomy picture of the day. *)
Definition apod : response :=
  mk_response 200
    (Ok (PDict [("title", PStr "Bennu up close");
                ("explanation", PStr "A rubble pile seen from orbit.")]))
    [].

(** A feed of four entries: of this year, of five years ago, of six years
    ago, and one whose date is no timestamp. *)
Definition feed : response :=
  mk_response 200
    (Raise (mk_exn JSONDecodeError "Expecting value: line 1 column 1 (char 0)"))
    [ mk_entry (Some " Dough rheology ") (Some "On gluten networks.")
               (Some "2025-03-01T12:00:00Z") (Some "http://arxiv.org/abs/2503.00001");
      mk_entry (Some "Oven heat transfer") None
               (Some "2020-06-15T08:30:00Z") (Some "http://arxiv.org/abs/2006.00002");
      mk_entry (Some "Yeast kinetics") (Some "Old news.")
               (Some "2019-12-31T23:59:59Z") (Some "http://arxiv.org/abs/1912.00003");
      mk_entry None (Some "No date.") (Some "last week") None ].

(** The web search and the feed answer at once. *)
Definition pizza : Env := scripted [search_results; feed].

(** The astronomy service answers at once, the feed at its second
    attempt. *)
Definition asteroid : Env := scripted [apod; unavailable; feed].

(** Nothing answers. *)
Definition outage : Env := scripted [].

(** The first attempt fails, the second is answered. *)
Definition second_try (answer : response) : Env := scripted [unavailable; answer].

(** The runs the examples look at. *)
Definition pizza_call : outcome pyval * world :=
  fetch_external_data pizza "best pizza recipe" fresh.

Definition pizza_result : pyval :=
  match pizza_call.1 with
  | Ok r => r
  | Raise _ => PNone
  end.





End Scenario.

(** ** How a run of an adapter ends *)

(** The three ways the attempts of a retry loop can go: every one fails;
    the attempt numbered [k] (from 0) is the first not to fail and is
    answered with status 200; or [requests.get] raises on it. *)
Inductive ending :=
| Exhausted
| Answered (k : nat) (resp : response)
| Broken (k : nat) (e : exn).

(** The ending [x] of a loop of [n] attempts sending [r], when [n0]
    requests were sent before. *)
Definition ends (E : Env) (n0 : nat) (r : request) (n : nat) (x : ending) : Prop :=
  match x with
  | Exhausted => all_fail E n0 r n
  | Answered k resp => (k < n)%nat ∧ succeeds_at E n0 r k resp
  | Broken k e => (k < n)%nat ∧ raises_at E n0 r k e
  end.

(** Attempts that failed, and requests sent, in a loop of [n] attempts
    ending with [x]. *)
Definition failed_attempts (n : nat) (x : ending) : nat :=
  match x with
  | Exhausted => n
  | Answered k _ | Broken k _ => k
  end.

Definition requests_sent (n : nat) (x : ending) : nat :=
  match x with
  | Exhausted => n
  | Answered k _ | Broken k _ => S k
  end.

(** The seconds slept in a trace. *)
Definition slept (tr : list event) : Z :=
  foldr (λ e total, match e with Sleep seconds => seconds + total | _ => total end) 0 tr.

(** The world of an adapter after its entry line and the failed rounds
    with log lines [lines], and after one more request. *)
Definition after_rounds (a : adapter) (r : request) (lines : list string) (w : world) : world :=
  mk_world (self w) (trace w ++ Log (entry_line a) :: failed_rounds r lines).

Definition after_request (a : adapter) (r : request) (lines : list string) (w : world) : world :=
  mk_world (self w) (trace w ++ Log (entry_line a) :: failed_rounds r lines ++ [Get r]).

(** Lines 83-87 of [_fetch_from_nasa]: the text made of a response of
    status 200. *)
Definition nasa_text (E : Env) (resp : response) : outcome string :=
  data ← json resp;
  title ← Py.get data "title" (PStr "No title provided.");
  explanation ← Py.get data "explanation" (PStr "No explanation available.");
  Ok ("NASA APOD" +:+ LF +:+ "Title: " +:+ str E title +:+ LF +:+
      "Explanation: " +:+ str E explanation +:+ LF).

(** The line logged for an entry whose date does not parse, if it does
    not. *)
Definition parse_error_events (E : Env) (entry : feed_entry) : list event :=
  match datetime_strptime E (default "" (published entry)) DATE_FORMAT with
  | Ok _ => []
  | Raise e =>
      [Log ("[APISelectionAgent] Error parsing published date '" +:+
            default "" (published entry) +:+ "': " +:+ exn_str e)]
  end.

(** The year below which the feed adapter drops an entry, for a call made
    in the world [w]: the clock is read right after the entry line. *)
Definition threshold_of (E : Env) (w : world) : Z :=
  now_year E (S (length (trace w))) - 5.

(** The papers the feed adapter makes of the entries of a feed. *)
Definition papers_of (E : Env) (threshold_year : Z) (entries : list feed_entry) : list pyval :=
  map (paper_of E) (filter (λ e, threshold_year ≤ published_year E e) entries).

(** ** The adapters, side by side *)

(** The request an adapter sends. *)
Definition request_of (a : adapter) (ag : agent) (query : string) : request :=
  match a with
  | Google => google_request ag query
  | Nasa => nasa_request ag
  | Arxiv => arxiv_request query
  end.

(** A result as a Python value. *)
Definition as_value {A} (f : A → pyval) (o : outcome A) : outcome pyval :=
  match o with
  | Ok a => Ok (f a)
  | Raise e => Raise e
  end.

(** A call of the method of adapter [a]. *)
Definition call (E : Env) (a : adapter) (query : string) (w : world) : outcome pyval * world :=
  match a with
  | Google => (as_value PStr (_fetch_from_google E query w).1, (_fetch_from_google E query w).2)
  | Nasa => (as_value PStr (_fetch_from_nasa E query w).1, (_fetch_from_nasa E query w).2)
  | Arxiv => (as_value PList (_fetch_from_arxiv E query w).1, (_fetch_from_arxiv E query w).2)
  end.

(** The sentinel of the summary adapter the router picks for a query. *)
Definition summary_sentinel (query : string) (n : Z) : string :=
  match summary_adapter query with
  | Nasa => "Error: NASA API request failed after " +:+ pretty n +:+ " attempts."
  | _ => "Error: Google Search API request failed after " +:+ pretty n +:+ " attempts."
  end.

(** A series of calls of [fetch_external_data], each in a world of its
    own answers, whatever their outcomes. *)
Fixpoint fetch_series (calls : list (Env * string)) (w : world) : world :=
  match calls with
  | [] => w
  | (E, q) :: rest => fetch_series rest (fetch_external_data E q w).2
  end.

(** The values a trace stores under [key], in order. *)
Definition stored_under (key : string) (tr : list event) : list pyval :=
  flat_map (λ e, match e with
                 | Store k v => if decide (k = key) then [v] else []
                 | _ => []
                 end) tr.

(** An event that stores nothing under ["external_data"]. *)
Definition no_data_store (e : event) : Prop :=
  ∀ v, e ≠ Store "external_data" v.

(** The text block of a search result given by its fields. *)
Definition block_of (E : Env) (fields : list (string * pyval)) : string :=
  "Title: " +:+ str E (default PNone (Py.lookup_key "title" fields)) +:+ LF +:+
  "Link: " +:+ str E (default PNone (Py.lookup_key "link" fields)) +:+ LF +:+
  "Snippet: " +:+ str E (default PNone (Py.lookup_key "snippet" fields)) +:+ LF.

(** A log line or a store: an event that is neither a request nor a
    sleep. *)
Definition is_note (e : event) : bool :=
  match e with
  | Log _ | Store _ _ => true
  | Get _ | Sleep _ => false
  end.

(** The request that ends the attempts, unless they all failed. *)
Definition last_request (r : request) (x : ending) : list event :=
  match x with
  | Exhausted => []
  | Answered _ _ | Broken _ _ => [Get r]
  end.

(** Whether the [published] text of an entry parses. *)
Definition date_parses (E : Env) (entry : feed_entry) : bool :=
  match published_date E entry with
  | Some _ => true
  | None => false
  end.

(** ** More scenarios *)
Module Incidents.
Import Scenario.

(** The connection breaks on the second request; before and after it the
    services answer 503. *)
Definition connection_error : exn :=
  mk_exn RequestException "Connection aborted.".

Definition cut_off : Env :=
  mk_Env (λ n _, if decide (n = 1%nat) then Raise connection_error else Ok unavailable)
         (λ _, 2025)
         Strptime.strptime
         (λ _, EmptyString).

(** A picture of the day without an explanation. *)
Definition apod_untitled : response :=
  mk_response 200 (Ok (PDict [("explanation", PStr "A rubble pile seen from orbit.")])) [].

(** An answer of status 200 whose body is a JSON list. *)
Definition list_body : response :=
  mk_response 200 (Ok (PList [PStr "rate limit exceeded"])) [].

(** An agent that was given a retry count of 0. *)
Definition no_retries : world := mk_world (__init__ (λ _, None) (Some 0)) [].

(** An environment in which only the search key is set. *)
Definition only_search_key (name : string) : option string :=
  if decide (name = "GOOGLE_API_KEY") then Some "k-123" else None.

(** The feed adapter called on a fresh agent that gets the feed at once. *)
Definition feed_call : outcome (list pyval) * world :=
  _fetch_from_arxiv (scripted [feed]) "best pizza recipe" fresh.

Definition feed_papers : list pyval :=
  match feed_call.1 with
  | Ok papers => papers
  | Raise _ => []
  end.

End Incidents.
(** ** A small logic of traces *)

Lemma bind_run {A B} (m : M A) (f : A → M B) w :
  (m ≫= f) w =
  match m w with
  | (Ok a, w') => f a w'
  | (Raise e, w') => (Raise e, w')
  end.
Proof. reflexivity. Qed.

Lemma grows_refl w : grows w w [].
Proof. split; [done | by rewrite app_nil_r]. Qed.

Lemma grows_trans w1 w2 w3 d1 d2 :
  grows w1 w2 d1 → grows w2 w3 d2 → grows w1 w3 (d1 ++ d2).
Proof.
  intros [S1 T1] [S2 T2]. split; [congruence |].
  by rewrite T2, T1, app_assoc.
Qed.

Lemma new_events_eq w w' d : trace w' = trace w ++ d → new_events w w' = d.
Proof. intros T. unfold new_events. by rewrite T, drop_app_length. Qed.

Lemma grows_new_events w w' d : grows w w' d → new_events w w' = d.
Proof. intros [_ T]. by apply new_events_eq. Qed.

Lemma emits_ret {A} P (a : A) : emits P (mret a).
Proof. intros w. exists []. split; [apply grows_refl | constructor]. Qed.

Lemma emits_lift {A} P (o : outcome A) : emits P (lift o).
Proof. intros w. exists []. split; [apply grows_refl | constructor]. Qed.

Lemma emits_attr {A} P (f : agent → A) : emits P (attr f).
Proof. intros w. exists []. split; [apply grows_refl | constructor]. Qed.

Lemma emits_emit (P : event → Prop) e : P e → emits P (emit e).
Proof. intros He w. exists [e]. split; [by split | by constructor]. Qed.

Lemma emits_requests_get E (P : event → Prop) url params :
  P (Get (mk_request url params)) → emits P (requests_get E url params).
Proof. intros He w. exists [Get (mk_request url params)]. split; [by split | by constructor]. Qed.

Lemma emits_current_year E P : emits P (current_year E).
Proof. intros w. exists []. split; [apply grows_refl | constructor]. Qed.

Lemma emits_bind {A B} P (m : M A) (f : A → M B) :
  emits P m → (∀ a, emits P (f a)) → emits P (m ≫= f).
Proof.
  intros Hm Hf w. rewrite bind_run.
  destruct (Hm w) as (d1 & G1 & F1). destruct (m w) as [[a|e] w1]; simpl in *.
  - destruct (Hf a w1) as (d2 & G2 & F2). exists (d1 ++ d2).
    split; [by eapply grows_trans | by apply Forall_app].
  - by exists d1.
Qed.

Lemma distinct_at (n : nat) (s t : string) :
  String.get n s ≠ String.get n t → s ≠ t.
Proof. congruence. Qed.

Lemma quiet_get r : quiet (Get r).
Proof. by intros a. Qed.
Lemma quiet_sleep n : quiet (Sleep n).
Proof. by intros a. Qed.
Lemma quiet_store k v : quiet (Store k v).
Proof. by intros a. Qed.

(** A log line whose 21st character is none of the three that follow the
    prefix in the entry lines is quiet. *)
Lemma quiet_log line :
  String.get 20 line ≠ Some "Q"%char → quiet (Log line).
Proof.
  intros H a. apply bool_decide_eq_false, (distinct_at 20).
  by destruct a.
Qed.

Ltac solve_quiet :=
  lazymatch goal with
  | |- quiet (Get _) => apply quiet_get
  | |- quiet (Sleep _) => apply quiet_sleep
  | |- quiet (Store _ _) => apply quiet_store
  | |- quiet (Log _) => apply quiet_log; lazy; discriminate
  | |- Forall quiet [] => constructor
  | |- Forall quiet (_ :: _) => constructor; solve_quiet
  end.

Ltac emits_step :=
  first
    [ assumption
    | apply emits_bind; [| intros ? ]
    | apply emits_ret | apply emits_lift | apply emits_attr
    | apply emits_current_year
    | apply emits_requests_get; apply quiet_get
    | apply emits_emit; first [ apply quiet_sleep | apply quiet_store
                              | apply quiet_log; lazy; discriminate ]
    | progress case_match ].

Lemma google_attempts_quiet E params attempts :
  emits quiet (google_attempts E params attempts).
Proof. induction attempts as [|attempt rest IH]; simpl; repeat emits_step. Qed.

Lemma nasa_attempts_quiet E params attempts :
  emits quiet (nasa_attempts E params attempts).
Proof. induction attempts as [|attempt rest IH]; simpl; repeat emits_step. Qed.

Lemma arxiv_attempts_quiet E url params attempts :
  emits quiet (arxiv_attempts E url params attempts).
Proof. induction attempts as [|attempt rest IH]; simpl; repeat emits_step. Qed.

Lemma arxiv_entries_quiet E threshold entries : ∀ papers,
  emits quiet (arxiv_entries E threshold entries papers).
Proof.
  induction entries as [|entry rest IH]; intros papers; simpl;
    repeat emits_step; apply IH.
Qed.

Lemma adapter_shape_intro {A} a (m : M A) :
  emits quiet m → adapter_shape a (log_event (entry_line a) ;; m).
Proof.
  intros Hm w. rewrite bind_run. simpl.
  destruct (Hm (mk_world (self w) (trace w ++ [Log (entry_line a)]))) as (d & [S T] & F).
  exists d. split; [split |]; [done | | done].
  rewrite T. simpl. by rewrite <- app_assoc.
Qed.

Lemma google_shape E q : adapter_shape Google (_fetch_from_google E q).
Proof.
  apply adapter_shape_intro. repeat emits_step. apply google_attempts_quiet.
Qed.

Lemma nasa_shape E q : adapter_shape Nasa (_fetch_from_nasa E q).
Proof.
  apply adapter_shape_intro. repeat emits_step. apply nasa_attempts_quiet.
Qed.

Lemma arxiv_shape E q : adapter_shape Arxiv (_fetch_from_arxiv E q).
Proof.
  apply adapter_shape_intro. repeat emits_step.
  - apply arxiv_attempts_quiet.
  - apply arxiv_entries_quiet.
Qed.


Lemma calls_quiet a d : Forall quiet d → calls a d = 0%nat.
Proof.
  unfold calls. induction 1 as [|e d He _ IH]; [done |].
  rewrite filter_cons_False; [exact IH | apply Is_true_false, He].
Qed.


(** ** The router *)

Lemma append_cons a p s : String a p +:+ s = String a (p +:+ s).
Proof. reflexivity. Qed.

Lemma startswith_spec p : ∀ s,
  PyStr.startswith p s = true ↔ ∃ post, s = p +:+ post.
Proof.
  induction p as [|a p IH]; intros s; simpl.
  - split; [by exists s | done].
  - destruct s as [|b s].
    + split; [done | by intros [post ?]].
    + case_decide as Hab.
      * subst b. rewrite IH.
        split; intros [post Hp]; exists post; rewrite append_cons in *; congruence.
      * split; [done |]. intros [post Hp]. rewrite append_cons in Hp. congruence.
Qed.

(** The substring test of the model is the substring relation. *)
Lemma contains_spec needle : ∀ hay,
  PyStr.contains needle hay = true ↔ ∃ pre post, hay = pre +:+ needle +:+ post.
Proof.
  induction hay as [|c r IH]; simpl.
  - rewrite orb_false_r, startswith_spec. split.
    + intros [post Hp]. by exists "", post.
    + intros ([|c pre] & post & Hp); [by exists post | done].
  - rewrite orb_true_iff, startswith_spec, IH. split.
    + intros [[post Hp] | (pre & post & Hp)].
      * by exists "", post.
      * exists (String c pre), post. by rewrite append_cons, Hp.
    + intros ([|c' pre] & post & Hp).
      * left. by exists post.
      * right. exists pre, post. rewrite append_cons in Hp. congruence.
Qed.

Lemma is_space_query_spec q :
  is_space_query q = true ↔
  ∃ keyword, keyword ∈ space_keywords ∧
             ∃ pre post, PyStr.lower q = pre +:+ keyword +:+ post.
Proof.
  unfold is_space_query. rewrite existsb_exists. split.
  - intros (k & Hin & Hk). exists k. split; [by apply list_elem_of_In |].
    by apply contains_spec.
  - intros (k & Hin & Hk). exists k. split; [by apply list_elem_of_In |].
    by apply contains_spec.
Qed.

(** ** The orchestrator *)
Section Orchestrator.
Context (E : Env).

Lemma summary_call_eq q :
  summary_call E q =
  if is_space_query q then _fetch_from_nasa E q else _fetch_from_google E q.
Proof. unfold summary_call, summary_adapter. by destruct (is_space_query q). Qed.

(** A cache hit, in full. *)
Lemma fetch_hit q w r :
  cache (self w) !! q = Some r →
  fetch_external_data E q w =
  (Ok r, mk_world (self w) (trace w ++ hit_events q r)).
Proof.
  intros H. unfold fetch_external_data. do 2 (rewrite bind_run; simpl).
  rewrite H. do 2 (rewrite bind_run; simpl). by rewrite <- !app_assoc.
Qed.

(** A cache miss, cut at the two adapter calls. *)
Lemma fetch_miss q w :
  cache (self w) !! q = None →
  fetch_external_data E q w =
  match summary_call E q (mk_world (self w) (trace w ++ [Log (processing_line q)])) with
  | (Raise e, w1) => (Raise e, w1)
  | (Ok data, w1) =>
      match _fetch_from_arxiv E q w1 with
      | (Raise e, w2) => (Raise e, w2)
      | (Ok papers, w2) =>
          (Ok (composite data papers),
           mk_world (with_cache (self w2) (<[q := composite data papers]> (cache (self w2))))
                    (trace w2 ++ closing_events data papers))
      end
  end.
Proof.
  intros H. unfold fetch_external_data. do 2 (rewrite bind_run; simpl).
  rewrite H. rewrite bind_run, summary_call_eq.
  fold (processing_line q).
  set (w0 := mk_world _ _).
  destruct ((if is_space_query q then _fetch_from_nasa E q else _fetch_from_google E q) w0)
    as [[data|e] w1]; [|done].
  rewrite bind_run. destruct (_fetch_from_arxiv E q w1) as [[papers|e] w2]; [|done].
  do 4 (rewrite bind_run; simpl). by rewrite <- !app_assoc.
Qed.

Lemma summary_call_shape q : adapter_shape (summary_adapter q) (summary_call E q).
Proof.
  unfold summary_call. destruct (summary_adapter q) eqn:Ha.
  - apply google_shape.
  - apply nasa_shape.
  - unfold summary_adapter in Ha. by destruct (is_space_query q).
Qed.

Lemma fetch_ok_cached q w r w1 :
  fetch_external_data E q w = (Ok r, w1) → cache (self w1) !! q = Some r.
Proof.
  destruct (cache (self w) !! q) as [r'|] eqn:Hc.
  - rewrite (fetch_hit _ _ _ Hc). intros [= <- <-]. exact Hc.
  - rewrite (fetch_miss _ _ Hc).
    destruct (summary_call E q _) as [[data|e] w'1]; [|done].
    destruct (_fetch_from_arxiv E q w'1) as [[papers|e] w'2]; [|done].
    intros [= <- <-]. simpl. apply lookup_insert_eq.
Qed.

Lemma sent_app d1 d2 : sent (d1 ++ d2) = (sent d1 + sent d2)%nat.
Proof. unfold sent. by rewrite filter_app, length_app. Qed.

(** C1. Calling [fetch_external_data] again with the query of a call that
    returned a composite returns the same composite; the second call is a
    cache hit that only logs two lines and forwards the cached composite
    to the memory sink: it sends no request and enters none of the three
    adapters. *)
Theorem fetch_twice_same_result q w r w1 :
  fetch_external_data E q w = (Ok r, w1) →
  ∃ w2, fetch_external_data E q w1 = (Ok r, w2)
        ∧ new_events w1 w2 = hit_events q r
        ∧ sent (trace w2) = sent (trace w1)
        ∧ (∀ a, calls a (new_events w1 w2) = 0%nat)
        ∧ self w2 = self w1.
Proof.
  intros H1. apply fetch_ok_cached in H1.
  rewrite (fetch_hit _ _ _ H1). eexists. split; [reflexivity |].
  assert (G : grows w1 (mk_world (self w1) (trace w1 ++ hit_events q r)) (hit_events q r))
    by by split.
  rewrite (grows_new_events _ _ _ G). simpl.
  split; [done |]. split; [by rewrite sent_app, Nat.add_0_r |].
  split; [| done]. intros a. apply calls_quiet.
  unfold hit_events. solve_quiet.
Qed.









(** The adapters leave the object, and so the cache, as it is. *)
Lemma summary_call_self q w : self (summary_call E q w).2 = self w.
Proof. by destruct (summary_call_shape q w) as (d & [S _] & _). Qed.

Lemma arxiv_self q w : self (_fetch_from_arxiv E q w).2 = self w.
Proof. by destruct (arxiv_shape E q w) as (d & [S _] & _). Qed.

Lemma google_self q w : self (_fetch_from_google E q w).2 = self w.
Proof. by destruct (google_shape E q w) as (d & [S _] & _). Qed.

Lemma nasa_self q w : self (_fetch_from_nasa E q w).2 = self w.
Proof. by destruct (nasa_shape E q w) as (d & [S _] & _). Qed.

(** C8. A call of [fetch_external_data] either leaves the cache as it
    was (a cache hit, or a call that ends in an exception), or it is a
    cache miss on which the summary adapter and then the feed adapter
    both returned with the cache still untouched; only then is the one
    entry for the query inserted, and its value is the composite of the
    two results, the very value the call returns. *)
Theorem cache_written_once_with_composite q w o w' :
  fetch_external_data E q w = (o, w') →
  (cache (self w') = cache (self w)
   ∧ (is_Some (cache (self w) !! q) ∨ ∃ e, o = Raise e))
  ∨ (∃ data papers w1 w2,
       cache (self w) !! q = None
       ∧ summary_call E q (after_processing q w) = (Ok data, w1)
       ∧ cache (self w1) = cache (self w)
       ∧ _fetch_from_arxiv E q w1 = (Ok papers, w2)
       ∧ cache (self w2) = cache (self w)
       ∧ o = Ok (composite data papers)
       ∧ cache (self w') = <[q := composite data papers]> (cache (self w))
       ∧ trace w' = trace w2 ++ closing_events data papers).
Proof.
  destruct (cache (self w) !! q) as [r|] eqn:Hc.
  - rewrite (fetch_hit _ _ _ Hc). intros [= <- <-]. left. eauto.
  - rewrite (fetch_miss _ _ Hc). fold (after_processing q w).
    pose proof (summary_call_self q (after_processing q w)) as S1.
    destruct (summary_call E q (after_processing q w)) as [[data|e] w1]; simpl in S1.
    + pose proof (arxiv_self q w1) as S2.
      destruct (_fetch_from_arxiv E q w1) as [[papers|e] w2] eqn:Hfeed;
        simpl in S2; intros [= <- <-].
      * right. exists data, papers, w1, w2. simpl.
        rewrite S2, S1. by repeat split.
      * left. simpl. rewrite S2, S1. eauto.
    + intros [= <- <-]. left. rewrite S1. eauto.
Qed.

End Orchestrator.

(** ** The retry loops *)
Section Retry.
Context (E : Env).

Lemma sent_snoc_other tr e : is_get e = false → sent (tr ++ [e]) = sent tr.
Proof.
  intros He. rewrite sent_app. unfold sent at 2.
  rewrite filter_cons_False; [simpl; lia | apply Is_true_false, He].
Qed.

Lemma all_fail_head n0 r n :
  all_fail E n0 r (S n) →
  ∃ resp, http_get E n0 r = Ok resp ∧ status_code resp ≠ 200.
Proof. intros H. destruct (H 0%nat) as (resp & ? & ?); [lia |]. rewrite Nat.add_0_r in *. eauto. Qed.

Lemma all_fail_tail n0 r n : all_fail E n0 r (S n) → all_fail E (S n0) r n.
Proof.
  intros H i Hi. destruct (H (S i)) as (resp & ? & ?); [lia |].
  exists resp. by rewrite Nat.add_succ_comm.
Qed.

Lemma all_fail_0 n0 r : all_fail E n0 r 0.
Proof. intros i Hi. lia. Qed.

Lemma sent_after_round tr r line :
  sent (tr ++ [Get r] ++ [Log line] ++ [Sleep 1]) = S (sent tr).
Proof. rewrite !sent_app. unfold sent at 2 3 4. simpl. lia. Qed.

Lemma failed_rounds_cons r line lines :
  failed_rounds r (line :: lines) = [Get r; Log line; Sleep 1] ++ failed_rounds r lines.
Proof. reflexivity. Qed.

(** One failed round of a retry loop: the step shared by the three
    inductions below. *)
Ltac failed_round IH Hfail Hle :=
  let resp := fresh "resp" in
  let Hresp := fresh "Hresp" in
  let Hstatus := fresh "Hstatus" in
  let lines := fresh "lines" in
  let Hlen := fresh "Hlen" in
  let Hrun := fresh "Hrun" in
  destruct (all_fail_head _ _ _ Hfail) as (resp & Hresp & Hstatus);
  apply all_fail_tail in Hfail;
  simpl; repeat (rewrite bind_run; simpl); rewrite Hresp;
  destruct (decide (status_code resp = 200)) as [|_]; [done |];
  repeat (rewrite bind_run; simpl);
  match goal with
  | |- context [Log ?l] =>
      match goal with
      | |- context [?f (mk_world ?s ?t)] =>
          destruct (IH (mk_world s t)) as (lines & Hlen & Hrun);
          [ simpl; rewrite <- !app_assoc;
            rewrite sent_after_round; exact Hfail
          | simpl in Hle; lia
          | exists (l :: lines); split; [simpl; congruence |];
            rewrite Hrun; unfold failed_rounds; simpl;
            by rewrite <- !app_assoc ]
      end
  end.

(** The first [k] attempts of each loop, when they all fail, leave the
    loop at its attempt [k] with [k] failed rounds on the trace. *)
Lemma google_attempts_skip params k : ∀ attempts w,
  all_fail E (sent (trace w)) (mk_request (google_endpoint (self w)) params) k →
  (k ≤ length attempts)%nat →
  ∃ lines, length lines = k ∧
    google_attempts E params attempts w =
    google_attempts E params (drop k attempts)
      (mk_world (self w)
         (trace w ++ failed_rounds (mk_request (google_endpoint (self w)) params) lines)).
Proof.
  induction k as [|k IH]; intros attempts w Hfail Hle.
  - exists []. split; [done |]. simpl. rewrite app_nil_r, drop_0. by destruct w.
  - destruct attempts as [|attempt rest]; [simpl in Hle; lia |].
    failed_round (IH rest) Hfail Hle.
Qed.

Lemma nasa_attempts_skip params k : ∀ attempts w,
  all_fail E (sent (trace w)) (mk_request (nasa_endpoint (self w)) params) k →
  (k ≤ length attempts)%nat →
  ∃ lines, length lines = k ∧
    nasa_attempts E params attempts w =
    nasa_attempts E params (drop k attempts)
      (mk_world (self w)
         (trace w ++ failed_rounds (mk_request (nasa_endpoint (self w)) params) lines)).
Proof.
  induction k as [|k IH]; intros attempts w Hfail Hle.
  - exists []. split; [done |]. simpl. rewrite app_nil_r, drop_0. by destruct w.
  - destruct attempts as [|attempt rest]; [simpl in Hle; lia |].
    failed_round (IH rest) Hfail Hle.
Qed.

Lemma arxiv_attempts_skip url params k : ∀ attempts w,
  all_fail E (sent (trace w)) (mk_request url params) k →
  (k ≤ length attempts)%nat →
  ∃ lines, length lines = k ∧
    arxiv_attempts E url params attempts w =
    arxiv_attempts E url params (drop k attempts)
      (mk_world (self w) (trace w ++ failed_rounds (mk_request url params) lines)).
Proof.
  induction k as [|k IH]; intros attempts w Hfail Hle.
  - exists []. split; [done |]. simpl. rewrite app_nil_r, drop_0. by destruct w.
  - destruct attempts as [|attempt rest]; [simpl in Hle; lia |].
    failed_round (IH rest) Hfail Hle.
Qed.

Lemma length_range n : length (Py.range n) = Z.to_nat n.
Proof. unfold Py.range. by rewrite length_map, length_seq. Qed.

Lemma sent_snoc_log tr line : sent (tr ++ [Log line]) = sent tr.
Proof. by apply sent_snoc_other. Qed.

(** C3. When every one of the N = [max_retries] attempts of a summary
    adapter is answered with a status other than 200, the adapter returns
    (it does not raise) its sentinel text, which names the source and
    contains N; its trace is N rounds of the request, a log line and a
    sleep of one unit, so that one unit of delay lies between any two
    attempts. *)
Theorem summary_adapters_exhausted q w :
  let n := max_retries (self w) in
  (all_fail E (sent (trace w)) (google_request (self w) q) (Z.to_nat n) →
   ∃ lines w',
     _fetch_from_google E q w =
       (Ok ("Error: Google Search API request failed after " +:+ pretty n +:+
            " attempts."), w')
     ∧ length lines = Z.to_nat n
     ∧ new_events w w' =
         Log (entry_line Google) :: failed_rounds (google_request (self w) q) lines
     ∧ self w' = self w)
  ∧ (all_fail E (sent (trace w)) (nasa_request (self w)) (Z.to_nat n) →
     ∃ lines w',
       _fetch_from_nasa E q w =
         (Ok ("Error: NASA API request failed after " +:+ pretty n +:+
              " attempts."), w')
       ∧ length lines = Z.to_nat n
       ∧ new_events w w' =
           Log (entry_line Nasa) :: failed_rounds (nasa_request (self w)) lines
       ∧ self w' = self w).
Proof.
  split; intros Hfail.
  - unfold _fetch_from_google. repeat (rewrite bind_run; simpl).
    set (w0 := mk_world _ _).
    destruct (google_attempts_skip
                [("q", PStr q); ("key", PStr (google_api_key (self w)));
                 ("cx", PStr (google_cx (self w))); ("num", PInt 5)]
                (Z.to_nat (max_retries (self w))) (Py.range (max_retries (self w))) w0)
      as (lines & Hlen & Hrun).
    { subst w0. simpl. by rewrite sent_snoc_log. }
    { by rewrite length_range. }
    rewrite Hrun, drop_ge by (by rewrite length_range).
    exists lines. eexists. split; [reflexivity |]. split; [done |].
    split; [| done]. apply new_events_eq. subst w0. simpl. by rewrite <- app_assoc.
  - unfold _fetch_from_nasa. repeat (rewrite bind_run; simpl).
    set (w0 := mk_world _ _).
    destruct (nasa_attempts_skip
                [("api_key", PStr (nasa_api_key (self w))); ("hd", PBool true)]
                (Z.to_nat (max_retries (self w))) (Py.range (max_retries (self w))) w0)
      as (lines & Hlen & Hrun).
    { subst w0. simpl. by rewrite sent_snoc_log. }
    { by rewrite length_range. }
    rewrite Hrun, drop_ge by (by rewrite length_range).
    exists lines. eexists. split; [reflexivity |]. split; [done |].
    split; [| done]. apply new_events_eq. subst w0. simpl. by rewrite <- app_assoc.
Qed.

(** C6. When every one of the N = [max_retries] attempts against the feed
    endpoint is answered with a status other than 200, the feed adapter
    returns (it does not raise) the empty list: a list, which no text
    equals. *)
Theorem feed_adapter_exhausted q w :
  all_fail E (sent (trace w)) (arxiv_request q) (Z.to_nat (max_retries (self w))) →
  ∃ lines w',
    _fetch_from_arxiv E q w = (Ok [], w')
    ∧ (∀ text, PList [] ≠ PStr text)
    ∧ length lines = Z.to_nat (max_retries (self w))
    ∧ new_events w w' =
        Log (entry_line Arxiv) :: failed_rounds (arxiv_request q) lines ++
        [Log "[APISelectionAgent] arXiv API request failed after retries"]
    ∧ self w' = self w.
Proof.
  intros Hfail. unfold _fetch_from_arxiv. repeat (rewrite bind_run; simpl).
  set (w0 := mk_world _ _).
  destruct (arxiv_attempts_skip (url (arxiv_request q)) (params (arxiv_request q))
              (Z.to_nat (max_retries (self w))) (Py.range (max_retries (self w))) w0)
    as (lines & Hlen & Hrun).
  { subst w0. simpl. by rewrite sent_snoc_log. }
  { by rewrite length_range. }
  simpl in Hrun. rewrite Hrun, drop_ge by (by rewrite length_range).
  simpl. repeat (rewrite bind_run; simpl).
  exists lines. eexists. split; [reflexivity |]. split; [done |]. split; [done |].
  split; [| done]. apply new_events_eq. subst w0. simpl. by rewrite <- !app_assoc.
Qed.

End Retry.

(** ** The research feed *)
Section Feed.
Context (E : Env).

(** One turn of the loop over the entries: it may log that the date does
    not parse, and goes on with or without the paper of the entry. *)
Lemma arxiv_entries_cons threshold entry rest papers w :
  ∃ w1, self w1 = self w ∧ sent (trace w1) = sent (trace w) ∧
    arxiv_entries E threshold (entry :: rest) papers w =
    if decide (threshold ≤ published_year E entry)
    then arxiv_entries E threshold rest (papers ++ [paper_of E entry]) w1
    else arxiv_entries E threshold rest papers w1.
Proof.
  unfold paper_of, parsed_date_of, published_year, published_date.
  simpl. rewrite bind_run.
  unfold datetime_strptime, time_strptime.
  destruct (strptime E (default "" (published entry)) DATE_FORMAT) as [msg|t]; simpl.
  - eexists. split; [| split]; [| | repeat case_decide; try lia; reflexivity];
      [done | apply sent_snoc_log].
  - destruct (Calendar.datetime_new _ _ _ _ _ _) as [d|e]; simpl.
    + exists w. split; [done |]. split; [done |].
      unfold lift. rewrite ?bind_run. simpl.
      repeat case_decide; try lia; try reflexivity.
      all: rewrite bind_run; simpl; by destruct w.
    + eexists. split; [| split]; [| | repeat case_decide; try lia; reflexivity];
        [done | apply sent_snoc_log].
Qed.

(** The loop over the entries never raises, sends nothing and keeps, in
    their order, the entries whose year (0 when the date does not parse)
    is not before the threshold. *)
Lemma arxiv_entries_run threshold entries : ∀ papers w,
  ∃ w', arxiv_entries E threshold entries papers w =
          (Ok (papers ++ map (paper_of E)
                           (filter (λ e, threshold ≤ published_year E e) entries)), w')
        ∧ self w' = self w ∧ sent (trace w') = sent (trace w).
Proof.
  induction entries as [|entry rest IH]; intros papers w.
  - exists w. simpl. by rewrite app_nil_r.
  - destruct (arxiv_entries_cons threshold entry rest papers w) as (w1 & S1 & N1 & ->).
    case_decide as Hy.
    + destruct (IH (papers ++ [paper_of E entry]) w1) as (w' & -> & S' & N').
      exists w'. rewrite filter_cons_True by done. simpl.
      rewrite <- app_assoc. split; [done |]. split; congruence.
    + destruct (IH papers w1) as (w' & -> & S' & N').
      exists w'. rewrite filter_cons_False by done.
      split; [done |]. split; congruence.
Qed.

Lemma sent_failed_rounds tr r lines :
  sent (tr ++ failed_rounds r lines) = (sent tr + length lines)%nat.
Proof.
  revert tr. induction lines as [|line lines IH]; intros tr.
  - simpl. by rewrite app_nil_r, Nat.add_0_r.
  - rewrite failed_rounds_cons, app_assoc, IH.
    change [Get r; Log line; Sleep 1] with ([Get r] ++ [Log line] ++ [Sleep 1]).
    rewrite sent_after_round. simpl. lia.
Qed.

Lemma drop_lt_cons {A} (l : list A) k :
  (k < length l)%nat → ∃ a rest, drop k l = a :: rest.
Proof.
  intros Hk. destruct (drop k l) as [|a rest] eqn:Hd; [| eauto].
  apply (f_equal length) in Hd. rewrite length_drop in Hd. simpl in Hd. lia.
Qed.

(** With a threshold above 0, comparing the normalized year is the same
    as asking for a date that parses and is recent. *)
Lemma recent_iff threshold entry :
  0 < threshold →
  threshold ≤ published_year E entry ↔ is_recent E threshold entry.
Proof.
  intros Hpos. unfold published_year, is_recent.
  destruct (published_date E entry) as [d|].
  - by rewrite bool_decide_spec.
  - simpl. split; [lia | done].
Qed.

(** C4. When the feed is fetched (some attempt within the N allowed is
    answered with status 200, the ones before it having failed) and the
    current year is after year 5, the feed adapter returns, in the order
    of the feed, the paper records of exactly those entries whose
    [published] text parses against [DATE_FORMAT] with a year not before
    the current year minus 5; an entry whose text does not parse counts
    as year 0, is left out, and nothing is raised. *)
Theorem feed_keeps_recent_in_order q w k resp :
  let current_year := now_year E (S (length (trace w))) in
  (k < Z.to_nat (max_retries (self w)))%nat →
  succeeds_at E (sent (trace w)) (arxiv_request q) k resp →
  5 < current_year →
  ∃ w',
    _fetch_from_arxiv E q w =
      (Ok (map (paper_of E)
             (filter (is_recent E (current_year - 5)) (feed_entries resp))), w')
    ∧ DATE_FORMAT = "%Y-%m-%dT%H:%M:%SZ"
    ∧ (∀ entry, published_date E entry = None →
                published_year E entry = 0
                ∧ entry ∉ filter (is_recent E (current_year - 5)) (feed_entries resp)).
Proof.
  intros current_year Hk (Hfail & Hresp & Hstatus) Hclock.
  unfold _fetch_from_arxiv. repeat (rewrite bind_run; simpl).
  rewrite length_app, Nat.add_1_r. simpl. fold current_year.
  set (w0 := mk_world _ _).
  destruct (arxiv_attempts_skip E (url (arxiv_request q)) (params (arxiv_request q))
              k (Py.range (max_retries (self w))) w0)
    as (lines & Hlen & Hrun).
  { subst w0. simpl. by rewrite sent_snoc_log. }
  { rewrite length_range. lia. }
  simpl in Hrun. rewrite Hrun. clear Hrun.
  destruct (drop_lt_cons (Py.range (max_retries (self w))) k) as (attempt & rest & ->).
  { by rewrite length_range. }
  simpl. repeat (rewrite bind_run; simpl).
  subst w0. simpl. rewrite sent_failed_rounds, sent_snoc_log, Hlen.
  change (mk_request _ _) with (arxiv_request q). rewrite Hresp.
  destruct (decide (status_code resp = 200)) as [_|]; [| done].
  simpl.
  edestruct (arxiv_entries_run (current_year - 5) (feed_entries resp) []) as (w' & -> & _).
  exists w'. simpl. split; [| split; [done |]].
  - do 3 f_equal. apply list_filter_iff. intros entry. apply recent_iff. lia.
  - intros entry Hnone. split.
    + unfold published_year. by rewrite Hnone.
    + intros Hin. apply list_elem_of_filter in Hin as [Hrec _].
      unfold is_recent in Hrec. by rewrite Hnone in Hrec.
Qed.

End Feed.

(** ** The shape of the results *)
Section Shape.
Context (E : Env).

Lemma paper_of_is_paper entry : is_paper (paper_of E entry).
Proof. unfold is_paper, paper_of. eauto 10. Qed.

Lemma arxiv_returns_papers q w papers w' :
  _fetch_from_arxiv E q w = (Ok papers, w') → Forall is_paper papers.
Proof.
  unfold _fetch_from_arxiv. repeat (rewrite bind_run; simpl).
  destruct (arxiv_attempts E _ _ _ _) as [[[resp|]|e] w1]; [| | done].
  - edestruct (arxiv_entries_run E) as (w2 & -> & _). intros [= <- <-].
    simpl. apply Forall_map, Forall_forall. intros. apply paper_of_is_paper.
  - simpl. by intros [= <- <-].
Qed.

Lemma fetch_keeps_cache_wf q w :
  cache_wf (self w) → cache_wf (self (fetch_external_data E q w).2).
Proof.
  intros Hwf. destruct (cache (self w) !! q) as [r|] eqn:Hc.
  - by rewrite (fetch_hit _ _ _ _ Hc).
  - rewrite (fetch_miss _ _ _ Hc).
    pose proof (summary_call_self E q (after_processing q w)) as S1.
    fold (after_processing q w).
    destruct (summary_call E q (after_processing q w)) as [[data|e] w1];
      simpl in S1; [| simpl; by rewrite S1].
    pose proof (arxiv_self E q w1) as S2.
    destruct (_fetch_from_arxiv E q w1) as [[papers|e] w2] eqn:Hfeed;
      simpl in S2; simpl; [| by rewrite S2, S1].
    rewrite S2, S1. intros q' v. simpl. rewrite lookup_insert. case_decide.
    + intros [= <-]. exists data, papers. split; [done |].
      by eapply arxiv_returns_papers.
    + apply Hwf.
Qed.

(** The cache of a reachable world holds composite results only. *)
Lemma reachable_cache_wf w : reachable E w → cache_wf (self w).
Proof.
  induction 1 as [getenv n tr | q w _ IH | q w _ IH | q w _ IH | q w _ IH | e w _ IH].
  - intros q v. simpl. by rewrite lookup_empty.
  - by apply fetch_keeps_cache_wf.
  - by rewrite google_self.
  - by rewrite nasa_self.
  - by rewrite arxiv_self.
  - done.
Qed.

(** No eviction: a call keeps the entries the cache has. *)
Lemma fetch_keeps_entries q q' w r :
  cache (self w) !! q = Some r →
  cache (self (fetch_external_data E q' w).2) !! q = Some r.
Proof.
  intros Hq. destruct (cache (self w) !! q') as [r'|] eqn:Hc.
  - by rewrite (fetch_hit _ _ _ _ Hc).
  - rewrite (fetch_miss _ _ _ Hc). fold (after_processing q' w).
    pose proof (summary_call_self E q' (after_processing q' w)) as S1.
    destruct (summary_call E q' (after_processing q' w)) as [[data|e] w1];
      simpl in S1; [| simpl; by rewrite S1].
    pose proof (arxiv_self E q' w1) as S2.
    destruct (_fetch_from_arxiv E q' w1) as [[papers|e] w2];
      simpl in S2; simpl; [| by rewrite S2, S1].
    rewrite S2, S1, lookup_insert_ne; [done | congruence].
Qed.

(** So a query answered once is answered from the cache ever after,
    whatever was asked in between. *)
Lemma fetch_again_later q w r w1 queries :
  fetch_external_data E q w = (Ok r, w1) →
  fetch_external_data E q (fetch_all E queries w1) =
  (Ok r, mk_world (self (fetch_all E queries w1))
                  (trace (fetch_all E queries w1) ++ hit_events q r)).
Proof.
  intros Hrun. apply fetch_ok_cached in Hrun. apply fetch_hit.
  revert w1 Hrun. induction queries as [|q' rest IH]; intros w1 Hrun; [done |].
  simpl. by apply IH, fetch_keeps_entries.
Qed.

(** C9. Whatever [fetch_external_data] returns, from a cache hit or from
    a miss, is a dictionary of exactly the two fields ["summary"], a text,
    and ["recent_advancements"], a list (possibly empty) of paper
    records; in particular it is never [None]. *)
Theorem fetch_returns_composite q w r w' :
  reachable E w →
  fetch_external_data E q w = (Ok r, w') →
  (∃ data papers,
     r = PDict [("summary", PStr data); ("recent_advancements", PList papers)]
     ∧ Forall is_paper papers)
  ∧ r ≠ PNone.
Proof.
  intros Hreach Hrun.
  assert (Hc : is_composite r).
  { apply (reachable_cache_wf _ (reach_fetch E q w Hreach)) with q.
    rewrite Hrun. simpl. by eapply fetch_ok_cached. }
  split; [exact Hc |]. by destruct Hc as (data & papers & -> & _).
Qed.

End Shape.

(** ** The web-search adapter *)
Section WebSearch.
Context (E : Env).

(** The attempt that is answered with status 200 ends the loop. *)
Lemma google_attempts_at_success params attempt rest w resp :
  http_get E (sent (trace w)) (mk_request (google_endpoint (self w)) params) = Ok resp →
  status_code resp = 200 →
  google_attempts E params (attempt :: rest) w =
  google_digest E resp
    (mk_world (self w) (trace w ++ [Get (mk_request (google_endpoint (self w)) params)])).
Proof.
  intros Hresp Hstatus. simpl. repeat (rewrite bind_run; simpl). rewrite Hresp.
  destruct (decide (status_code resp = 200)) as [_|]; [| done].
  unfold google_digest, google_links, lift. rewrite bind_run. simpl.
  destruct (json resp) as [search_results|e]; simpl; [| done].
  rewrite bind_run. simpl.
  destruct (Py.contains "items" search_results) as [[|]|e]; simpl; [| done | done].
  rewrite bind_run. simpl.
  destruct (Py.getitem search_results "items") as [top_results|e]; simpl; [| done].
  rewrite bind_run. simpl.
  destruct (Py.comprehension _ top_results) as [urls|e]; simpl; [| done].
  repeat (rewrite bind_run; simpl).
  fold (google_block E).
  by destruct (Py.comprehension (google_block E) top_results).
Qed.

(** The attempt on which [requests.get] raises ends the loop too. *)
Lemma google_attempts_at_raise params attempt rest w e :
  http_get E (sent (trace w)) (mk_request (google_endpoint (self w)) params) = Raise e →
  google_attempts E params (attempt :: rest) w =
  (Raise e,
   mk_world (self w) (trace w ++ [Get (mk_request (google_endpoint (self w)) params)])).
Proof.
  intros Hresp. simpl. repeat (rewrite bind_run; simpl). by rewrite Hresp.
Qed.

(** How a run of sendings ends: they all fail, or a first one is
    answered with status 200, or a first one raises. *)
Lemma answers_cases n0 r n :
  all_fail E n0 r n
  ∨ ∃ k, (k < n)%nat ∧
         ((∃ resp, succeeds_at E n0 r k resp) ∨ (∃ e, raises_at E n0 r k e)).
Proof.
  induction n as [|n [Hall | (k & Hk & Hend)]].
  - left. apply all_fail_0.
  - destruct (http_get E (n0 + n) r) as [resp|e] eqn:Hresp.
    + destruct (decide (status_code resp = 200)) as [H200|Hnot].
      * right. exists n. split; [lia |]. left. by exists resp.
      * left. intros i Hi. destruct (decide (i = n)) as [->|]; [by exists resp |].
        apply Hall. lia.
    + right. exists n. split; [lia |]. right. by exists e.
  - right. exists k. split; [lia | done].
Qed.

Lemma succeeds_at_unique n0 r k resp k' resp' :
  succeeds_at E n0 r k resp → succeeds_at E n0 r k' resp' → k = k' ∧ resp = resp'.
Proof.
  intros (F & H & S) (F' & H' & S').
  destruct (Nat.lt_trichotomy k k') as [Hlt | [-> | Hgt]].
  - destruct (F' k Hlt) as (x & Hx & Hs). congruence.
  - split; congruence.
  - destruct (F k' Hgt) as (x & Hx & Hs). congruence.
Qed.

Lemma succeeds_not_all_fail n0 r k resp n :
  succeeds_at E n0 r k resp → (k < n)%nat → ¬ all_fail E n0 r n.
Proof. intros (_ & H & S) Hk F. destruct (F k Hk) as (x & Hx & Hs). congruence. Qed.

Lemma succeeds_not_raises n0 r k resp k' e :
  succeeds_at E n0 r k resp → ¬ raises_at E n0 r k' e.
Proof.
  intros (F & H & S) (F' & H').
  destruct (Nat.lt_trichotomy k k') as [Hlt | [-> | Hgt]].
  - destruct (F' k Hlt) as (x & Hx & Hs). congruence.
  - congruence.
  - destruct (F k' Hgt) as (x & Hx & Hs). congruence.
Qed.

(** The three ways [_fetch_from_google] can go. *)
Lemma google_run q w :
  let n := Z.to_nat (max_retries (self w)) in
  let r := google_request (self w) q in
  let after lines :=
    mk_world (self w) (trace w ++ Log (entry_line Google) :: failed_rounds r lines) in
  (∃ lines, all_fail E (sent (trace w)) r n ∧
     _fetch_from_google E q w =
     (Ok ("Error: Google Search API request failed after " +:+
          pretty (max_retries (self w)) +:+ " attempts."), after lines))
  ∨ (∃ k lines resp, (k < n)%nat ∧ succeeds_at E (sent (trace w)) r k resp ∧
       _fetch_from_google E q w =
       google_digest E resp (mk_world (self w) (trace (after lines) ++ [Get r])))
  ∨ (∃ k lines e, (k < n)%nat ∧ raises_at E (sent (trace w)) r k e ∧
       _fetch_from_google E q w =
       (Raise e, mk_world (self w) (trace (after lines) ++ [Get r]))).
Proof.
  intros n r after.
  unfold _fetch_from_google. repeat (rewrite bind_run; simpl).
  set (w0 := mk_world _ _). set (ps := [("q", _); _; _; _]).
  assert (Hskip : ∀ k, (k ≤ n)%nat → all_fail E (sent (trace w)) r k →
            ∃ lines, google_attempts E ps (Py.range (max_retries (self w))) w0 =
                     google_attempts E ps (drop k (Py.range (max_retries (self w))))
                       (after lines)
                     ∧ sent (trace (after lines)) = (sent (trace w) + k)%nat).
  { intros k Hk Hfail.
    destruct (google_attempts_skip E ps k (Py.range (max_retries (self w))) w0)
      as (lines & Hlen & Hrun).
    - subst w0. simpl. by rewrite sent_snoc_log.
    - by rewrite length_range.
    - exists lines. split.
      + rewrite Hrun. subst w0 after. simpl. by rewrite <- app_assoc.
      + subst after. simpl.
        change (Log ?l :: ?t) with ([Log l] ++ t).
        by rewrite app_assoc, sent_failed_rounds, sent_snoc_log, Hlen. }
  destruct (answers_cases (sent (trace w)) r n)
    as [Hall | (k & Hk & [(resp & Hs) | (e & Hr)])].
  - left. destruct (Hskip n) as (lines & -> & _); [lia | done |].
    exists lines. split; [done |].
    by rewrite drop_ge by (by rewrite length_range).
  - right. left. destruct Hs as (Hfail & Hresp & H200).
    destruct (Hskip k) as (lines & -> & Hsent); [lia | done |].
    destruct (drop_lt_cons (Py.range (max_retries (self w))) k) as (attempt & rest & ->).
    { by rewrite length_range. }
    exists k, lines, resp. split; [done |]. split; [done |].
    apply google_attempts_at_success; [by rewrite Hsent | done].
  - right. right. destruct Hr as (Hfail & Hresp).
    destruct (Hskip k) as (lines & -> & Hsent); [lia | done |].
    destruct (drop_lt_cons (Py.range (max_retries (self w))) k) as (attempt & rest & ->).
    { by rewrite length_range. }
    exists k, lines, e. split; [done |]. split; [done |].
    apply google_attempts_at_raise. by rewrite Hsent.
Qed.

Lemma map_outcome_links items : ∀ urls,
  Py.map_outcome (λ res, Py.get res "link" PNone) items = Ok urls ↔
  Forall2 (λ item u, ∃ f, item = PDict f ∧ u = default PNone (Py.lookup_key "link" f))
          items urls.
Proof.
  induction items as [|item items IH]; intros urls; simpl.
  - split; [intros [= <-]; constructor | by inversion 1].
  - split.
    + destruct (Py.get item "link" PNone) as [u|e] eqn:Hget; simpl; [| done].
      destruct (Py.map_outcome _ items) as [us|e] eqn:Hrest; simpl; [| done].
      intros [= <-]. constructor; [| by apply IH].
      destruct item; try done. simpl in Hget. injection Hget as <-. eauto.
    + inversion 1 as [|? u ? us (f & -> & ->) Hrest]; subst. simpl.
      apply IH in Hrest. by rewrite Hrest.
Qed.

(** [google_links] finds links exactly for the bodies [has_item_links]
    describes. *)
Lemma links_spec resp urls :
  (∃ top, google_links resp = Ok (Some (top, urls))) ↔ has_item_links resp urls.
Proof.
  unfold google_links, has_item_links. split.
  - intros (top & H). destruct (json resp) as [v|e]; simpl in H; [| done].
    destruct v as [| | | | s |l|fields|t]; simpl in H; try done.
    + by destruct (PyStr.contains "items" s).
    + by destruct (existsb (Py.eq_str "items") l).
    + destruct (Py.lookup_key "items" fields) as [top'|] eqn:Hlook; simpl in H;
        [| done].
      unfold Py.comprehension in H.
      destruct (Py.iter top') as [items|e] eqn:Hiter; simpl in H; [| done].
      destruct (Py.map_outcome _ items) as [us|e] eqn:Hmap; simpl in H; [| done].
      injection H as <- <-. exists fields, top', items.
      repeat split; try done. by apply map_outcome_links.
  - intros (fields & top & items & -> & Hlook & Hiter & Hall). exists top. simpl.
    rewrite bool_decide_eq_true_2 by (rewrite Hlook; eauto). simpl. rewrite Hlook.
    simpl. unfold Py.comprehension. rewrite Hiter. simpl.
    apply map_outcome_links in Hall. by rewrite Hall.
Qed.

Lemma stores_app d1 d2 : stores (d1 ++ d2) = stores d1 ++ stores d2.
Proof. unfold stores. by rewrite flat_map_app. Qed.

Lemma stores_failed_rounds r lines : stores (failed_rounds r lines) = [].
Proof. induction lines as [|line lines IH]; [done |]. by rewrite failed_rounds_cons, stores_app, IH. Qed.

(** The effect of digesting a response: at most the one store of the
    links. *)
Lemma google_digest_trace resp w :
  self (google_digest E resp w).2 = self w
  ∧ trace (google_digest E resp w).2 =
      trace w ++ match google_links resp with
                 | Ok (Some (_, urls)) => [Store "external_urls" (PList urls)]
                 | _ => []
                 end.
Proof.
  unfold google_digest.
  destruct (google_links resp) as [[[top urls]|]|e]; simpl; try by rewrite app_nil_r.
  by destruct (Py.comprehension (google_block E) top).
Qed.

(** What a run of [_fetch_from_google] stores in the sink. *)
Lemma google_stores q w :
  let n := Z.to_nat (max_retries (self w)) in
  let r := google_request (self w) q in
  let d := new_events w (_fetch_from_google E q w).2 in
  (stores d = [] ∧
   ¬ ∃ k resp urls, (k < n)%nat ∧ succeeds_at E (sent (trace w)) r k resp
                    ∧ has_item_links resp urls)
  ∨ (∃ k resp urls, (k < n)%nat ∧ succeeds_at E (sent (trace w)) r k resp
                    ∧ has_item_links resp urls
                    ∧ stores d = [("external_urls", PList urls)]).
Proof.
  intros n r d. subst d.
  destruct (google_run q w)
    as [(lines & Hall & ->) | [(k & lines & resp & Hk & Hs & ->)
                              | (k & lines & e & Hk & Hr & ->)]];
    fold n r in Hall || fold n r in Hs || fold n r in Hr.
  - left. split.
    + erewrite new_events_eq by reflexivity. simpl. apply stores_failed_rounds.
    + intros (k & resp & urls & Hk & Hs & _). by eapply succeeds_not_all_fail.
  - set (wk := mk_world _ _).
    destruct (google_digest_trace resp wk) as [_ Htr].
    destruct (google_links resp) as [[[top urls]|]|e] eqn:Hlinks.
    + right. exists k, resp, urls. repeat split; try apply Hs; [done | |].
      * apply links_spec. eauto.
      * erewrite new_events_eq; last first.
        { rewrite Htr. subst wk. simpl. rewrite <- !app_assoc. reflexivity. }
        simpl. by rewrite !stores_app, stores_failed_rounds.
    + left. split.
      * erewrite new_events_eq; last first.
        { rewrite Htr. subst wk. simpl. rewrite <- !app_assoc. reflexivity. }
        simpl. by rewrite !stores_app, stores_failed_rounds.
      * intros (k' & resp' & urls & _ & Hs' & Hlinks').
        destruct (succeeds_at_unique _ _ _ _ _ _ Hs Hs') as [_ <-].
        apply links_spec in Hlinks' as [top Htop]. congruence.
    + left. split.
      * erewrite new_events_eq; last first.
        { rewrite Htr. subst wk. simpl. rewrite <- !app_assoc. reflexivity. }
        simpl. by rewrite !stores_app, stores_failed_rounds.
      * intros (k' & resp' & urls & _ & Hs' & Hlinks').
        destruct (succeeds_at_unique _ _ _ _ _ _ Hs Hs') as [_ <-].
        apply links_spec in Hlinks' as [top Htop]. congruence.
  - left. split.
    + erewrite new_events_eq; last first.
      { simpl. rewrite <- !app_assoc. reflexivity. }
      simpl. by rewrite !stores_app, stores_failed_rounds.
    + intros (k' & resp' & urls & _ & Hs' & _). by eapply succeeds_not_raises.
Qed.

(** C10, as the code has it. The web-search adapter writes to the sink
    exactly when the attempt that is answered with status 200 carries a
    JSON object with an ["items"] member made of objects, be it an empty
    list: it then stores once, under ["external_urls"], the list of the
    ["link"] members of the items in order. In every other run (no
    ["items"] member, every attempt failed, an exception) it stores
    nothing. *)
Theorem external_urls_written q w o w' :
  _fetch_from_google E q w = (o, w') →
  let n := Z.to_nat (max_retries (self w)) in
  let r := google_request (self w) q in
  (∀ k resp urls,
     (k < n)%nat → succeeds_at E (sent (trace w)) r k resp →
     has_item_links resp urls →
     stores (new_events w w') = [("external_urls", PList urls)])
  ∧ ((¬ ∃ k resp urls, (k < n)%nat ∧ succeeds_at E (sent (trace w)) r k resp
                       ∧ has_item_links resp urls) →
     stores (new_events w w') = []).
Proof.
  intros Hrun n r. pose proof (google_stores q w) as H. rewrite Hrun in H. simpl in H.
  fold n r in H.
  destruct H as [[Hnone Hno] | (k0 & resp0 & urls0 & Hk0 & Hs0 & Hl0 & Hst)].
  - split; [| done]. intros k resp urls Hk Hs Hl. destruct Hno. eauto 6.
  - split; [| intros Hno; destruct Hno; eauto 6].
    intros k resp urls Hk Hs Hl.
    destruct (succeeds_at_unique _ _ _ _ _ _ Hs0 Hs) as [_ <-].
    apply links_spec in Hl as [top Htop]. apply links_spec in Hl0 as [top0 Htop0].
    congruence.
Qed.

Lemma map_outcome_dicts {B} (g : pyval → outcome B) items :
  Forall is_dict items → (∀ f, ∃ y, g (PDict f) = Ok y) →
  ∃ ys, Py.map_outcome g items = Ok ys.
Proof.
  intros Hall Hg. induction Hall as [|item items [f ->] _ [ys IH]]; simpl; [eauto |].
  destruct (Hg f) as [y ->]. simpl. rewrite IH. simpl. eauto.
Qed.

Lemma well_shaped_digest resp w :
  well_shaped resp → ∃ text w', google_digest E resp w = (Ok text, w').
Proof.
  intros (fields & Hjson & [Hnone | (items & Hsome & Hall)]);
    unfold google_digest, google_links; rewrite Hjson; simpl.
  - rewrite Hnone. simpl. eauto.
  - rewrite Hsome. simpl. unfold Py.comprehension. simpl.
    destruct (map_outcome_dicts (λ res, Py.get res "link" PNone) items Hall) as [urls ->];
      [simpl; eauto |].
    simpl.
    destruct (map_outcome_dicts (google_block E) items Hall) as [blocks ->];
      [intros f; unfold google_block; simpl; eauto |].
    eauto.
Qed.

Lemma garbled_digest resp w e :
  json resp = Raise e → google_digest E resp w = (Raise e, w).
Proof. intros H. unfold google_digest, google_links. by rewrite H. Qed.

(** C5, as the code has it. The web-search adapter swallows the statuses
    other than 200 and nothing else. It returns a text when each of its
    attempts is answered with another status, and when the attempt that
    is answered with status 200, the last one it makes, carries what the
    adapter is written for: a JSON object with no ["items"] member or
    with a list of objects under it. Nothing is asked of the sendings
    that are never made. A parsing error is not swallowed: when the
    response of status 200 has a body that is no JSON, the exception of
    [response.json()] leaves the adapter. *)
Theorem web_search_returns_text q w :
  let n := Z.to_nat (max_retries (self w)) in
  let r := google_request (self w) q in
  (all_fail E (sent (trace w)) r n →
   ∃ text w', _fetch_from_google E q w = (Ok text, w'))
  ∧ (∀ k resp,
       (k < n)%nat → succeeds_at E (sent (trace w)) r k resp → well_shaped resp →
       ∃ text w', _fetch_from_google E q w = (Ok text, w'))
  ∧ (∀ k resp e,
       (k < n)%nat → succeeds_at E (sent (trace w)) r k resp → json resp = Raise e →
       ∃ w', _fetch_from_google E q w = (Raise e, w')).
Proof.
  intros n r.
  destruct (google_run q w)
    as [(lines & Hall & ->) | [(k & lines & resp & Hk & Hs & ->)
                              | (k & lines & e & Hk & Hr & ->)]];
    fold n r in Hall || fold n r in Hs || fold n r in Hr.
  - split; [eauto |]. split.
    + intros k resp Hk Hs _. by destruct (succeeds_not_all_fail _ _ _ _ _ Hs Hk).
    + intros k resp e Hk Hs _. by destruct (succeeds_not_all_fail _ _ _ _ _ Hs Hk).
  - split; [| split].
    + intros Hall. by destruct (succeeds_not_all_fail _ _ _ _ _ Hs Hk).
    + intros k' resp' Hk' Hs' Hshape.
      destruct (succeeds_at_unique _ _ _ _ _ _ Hs Hs') as [_ <-].
      by apply well_shaped_digest.
    + intros k' resp' e Hk' Hs' Hjson.
      destruct (succeeds_at_unique _ _ _ _ _ _ Hs Hs') as [_ <-].
      rewrite (garbled_digest _ _ _ Hjson). eauto.
  - split; [| split].
    + intros Hall. destruct Hr as (_ & Hget).
      destruct (Hall k Hk) as (resp' & Hget' & _). congruence.
    + intros k' resp' _ Hs' _. by destruct (succeeds_not_raises _ _ _ _ _ _ Hs' Hr).
    + intros k' resp' e' _ Hs' _. by destruct (succeeds_not_raises _ _ _ _ _ _ Hs' Hr).
Qed.

End WebSearch.

(** ** The scenarios, run *)
Module Runs.
Import Scenario.

(** The routing examples of the specification. *)
Example route_asteroid : is_space_query "latest asteroid discovery" = true.
Proof. reflexivity. Qed.

Example route_pizza : is_space_query "best pizza recipe" = false.
Proof. reflexivity. Qed.

Example route_case : is_space_query "The GALAXY next door" = true.
Proof. reflexivity. Qed.

(** The recency example of the specification: of the entries of this
    year, of five and of six years ago, the first two are kept; the entry
    without a timestamp is dropped. *)
Example feed_filtered :
  (_fetch_from_arxiv (scripted [feed]) "best pizza recipe" fresh).1 =
  Ok [ PDict [("title", PStr "Dough rheology"); ("summary", PStr "On gluten networks.");
              ("year", PInt 2025); ("published", PStr "2025-03-01T12:00:00Z");
              ("link", PStr "http://arxiv.org/abs/2503.00001");
              ("parsed_date", PTime (mk_struct_time 2025 3 1 12 0 0 5 60 (-1)))];
       PDict [("title", PStr "Oven heat transfer");
              ("summary", PStr "No summary available.");
              ("year", PInt 2020); ("published", PStr "2020-06-15T08:30:00Z");
              ("link", PStr "http://arxiv.org/abs/2006.00002");
              ("parsed_date", PTime (mk_struct_time 2020 6 15 8 30 0 0 167 (-1)))] ].
Proof. vm_compute. reflexivity. Qed.

(** The whole pizza call: two search results and the two recent papers. *)
Example pizza_call_result :
  pizza_call.1 =
  Ok (PDict [
    ("summary",
     PStr ("Title: Neapolitan pizza" +:+ LF +:+ "Link: https://example.org/pizza" +:+ LF +:+
           "Snippet: Flour, water, salt, yeast." +:+ LF +:+ LF +:+
           "Title: Pizza dough" +:+ LF +:+ "Link: None" +:+ LF +:+
           "Snippet: Rest it overnight." +:+ LF));
    ("recent_advancements",
     PList (map (paper_of pizza) (take 2 (feed_entries feed)))) ]).
Proof. vm_compute. reflexivity. Qed.

Lemma pizza_call_eq : pizza_call = (Ok pizza_result, pizza_call.2).
Proof. vm_compute. reflexivity. Qed.

Lemma fresh_miss q : cache (self fresh) !! q = None.
Proof. apply lookup_empty. Qed.

(** Witness of C1: the pizza query, asked twice. *)
Lemma fetch_twice_same_result_witness :
  pizza_call = (Ok pizza_result, pizza_call.2)
  ∧ ∃ w2, fetch_external_data pizza "best pizza recipe" pizza_call.2 = (Ok pizza_result, w2)
          ∧ new_events pizza_call.2 w2 = hit_events "best pizza recipe" pizza_result
          ∧ sent (trace w2) = sent (trace pizza_call.2)
          ∧ (∀ a, calls a (new_events pizza_call.2 w2) = 0%nat)
          ∧ self w2 = self pizza_call.2.
Proof.
  split; [exact pizza_call_eq |].
  exact (fetch_twice_same_result pizza "best pizza recipe" fresh pizza_result
           pizza_call.2 pizza_call_eq).
Defined.


Lemma outage_all_fail n0 r n : all_fail outage n0 r n.
Proof.
  intros i _. exists unavailable. split; [| done].
  unfold outage, scripted. simpl. by destruct (n0 + i)%nat.
Qed.

(** Witness of C3: with the default of two attempts and nothing
    answering, both summary adapters give their sentinel. *)
Lemma summary_adapters_exhausted_witness :
  (_fetch_from_google outage "best pizza recipe" fresh).1 =
    Ok "Error: Google Search API request failed after 2 attempts."
  ∧ (_fetch_from_nasa outage "latest asteroid discovery" fresh).1 =
    Ok "Error: NASA API request failed after 2 attempts.".
Proof.
  split.
  - destruct (proj1 (summary_adapters_exhausted outage "best pizza recipe" fresh)
                (outage_all_fail _ _ _)) as (lines & w' & -> & _).
    reflexivity.
  - destruct (proj2 (summary_adapters_exhausted outage "latest asteroid discovery" fresh)
                (outage_all_fail _ _ _)) as (lines & w' & -> & _).
    reflexivity.
Defined.

(** Witness of C6: nothing answering, the feed adapter gives the empty
    list. *)
Lemma feed_adapter_exhausted_witness :
  all_fail outage 0 (arxiv_request "best pizza recipe") 2
  ∧ (_fetch_from_arxiv outage "best pizza recipe" fresh).1 = Ok [].
Proof.
  split; [apply outage_all_fail |].
  destruct (feed_adapter_exhausted outage "best pizza recipe" fresh (outage_all_fail _ _ _))
    as (lines & w' & -> & _).
  reflexivity.
Defined.

Lemma second_try_succeeds answer r :
  status_code answer = 200 → succeeds_at (second_try answer) 0 r 1 answer.
Proof.
  intros H200. split; [| by split].
  intros i Hi. exists unavailable. split; [| done].
  by replace i with 0%nat by lia.
Qed.

(** Witness of C4: the feed answers at the second attempt, in 2025. *)
Lemma feed_keeps_recent_in_order_witness :
  succeeds_at (second_try feed) 0 (arxiv_request "best pizza recipe") 1 feed
  ∧ (_fetch_from_arxiv (second_try feed) "best pizza recipe" fresh).1 =
    Ok (map (paper_of (second_try feed)) (take 2 (feed_entries feed))).
Proof.
  split; [by apply second_try_succeeds |].
  destruct (feed_keeps_recent_in_order (second_try feed) "best pizza recipe" fresh 1 feed)
    as (w' & -> & _).
  - simpl. lia.
  - by apply second_try_succeeds.
  - simpl. lia.
  - reflexivity.
Defined.

Lemma search_results_well_shaped : well_shaped search_results.
Proof.
  eexists. split; [reflexivity |]. right. eexists. split; [reflexivity |].
  repeat constructor; by eexists.
Qed.

Lemma pizza_succeeds r : succeeds_at pizza 0 r 0 search_results.
Proof. split; [| by split]. intros i Hi. lia. Qed.

(** Witness of C5 as amended. The search answers the first attempt, and
    the second attempt is never made; a failed attempt, then two results;
    nothing answers. *)
Lemma web_search_returns_text_witness :
  (∃ text w', _fetch_from_google pizza "best pizza recipe" fresh = (Ok text, w'))
  ∧ (∃ text w',
       _fetch_from_google (second_try search_results) "best pizza recipe" fresh =
       (Ok text, w'))
  ∧ (∃ text w', _fetch_from_google outage "best pizza recipe" fresh = (Ok text, w')).
Proof.
  split; [| split].
  - apply (proj1 (proj2 (web_search_returns_text pizza "best pizza recipe" fresh))
             0%nat search_results).
    + simpl. lia.
    + apply pizza_succeeds.
    + apply search_results_well_shaped.
  - apply (proj1 (proj2 (web_search_returns_text (second_try search_results)
                           "best pizza recipe" fresh)) 1%nat search_results).
    + simpl. lia.
    + by apply second_try_succeeds.
    + apply search_results_well_shaped.
  - apply (proj1 (web_search_returns_text outage "best pizza recipe" fresh)).
    apply outage_all_fail.
Defined.

(** Counterexample to C5: a response of status 200 whose body is no JSON
    makes the web-search adapter raise; no text is returned. *)
Lemma web_search_raises_on_garbled_body :
  (_fetch_from_google (scripted [search_garbled]) "best pizza recipe" fresh).1 =
    Raise (mk_exn JSONDecodeError "Expecting value: line 1 column 1 (char 0)")
  ∧ ¬ ∃ text w',
        _fetch_from_google (scripted [search_garbled]) "best pizza recipe" fresh =
        (Ok text, w').
Proof.
  assert (H : (_fetch_from_google (scripted [search_garbled]) "best pizza recipe" fresh).1 =
              Raise (mk_exn JSONDecodeError "Expecting value: line 1 column 1 (char 0)"))
    by (vm_compute; reflexivity).
  split; [exact H |]. intros (text & w' & Hrun). rewrite Hrun in H. discriminate H.
Qed.




(** Witness of C8: the pizza call inserts its composite. *)
Lemma cache_written_once_with_composite_witness :
  cache (self pizza_call.2) !! "best pizza recipe" = Some pizza_result.
Proof.
  destruct (cache_written_once_with_composite pizza "best pizza recipe" fresh
              pizza_call.1 pizza_call.2 (surjective_pairing _))
    as [[_ [[v Hhit] | [e Hraise]]]
       | (data & papers & w1 & w2 & _ & _ & _ & _ & _ & Hres & Hcache & _)].
  - by rewrite fresh_miss in Hhit.
  - fold pizza_call in Hraise. by rewrite pizza_call_eq in Hraise.
  - fold pizza_call in Hres. rewrite pizza_call_eq in Hres.
    change (Ok pizza_result = Ok (composite data papers)) in Hres.
    assert (Heq : pizza_result = composite data papers) by congruence.
    rewrite Hcache, Heq. apply lookup_insert_eq.
Defined.

(** Witness of C9: a fresh agent is reachable, and the pizza call returns
    a composite. *)
Lemma fetch_returns_composite_witness :
  reachable pizza fresh
  ∧ (∃ data papers,
       pizza_result =
         PDict [("summary", PStr data); ("recent_advancements", PList papers)]
       ∧ Forall is_paper papers)
  ∧ pizza_result ≠ PNone.
Proof.
  split; [apply reach_init |].
  exact (fetch_returns_composite pizza "best pizza recipe" fresh pizza_result
           pizza_call.2 (reach_init pizza _ _ _) pizza_call_eq).
Defined.

Lemma search_results_links :
  has_item_links search_results [PStr "https://example.org/pizza"; PNone].
Proof.
  do 3 eexists. repeat split; try reflexivity.
  repeat constructor; eexists; split; reflexivity.
Qed.

(** Witness of C10 as amended: the links of the two results are stored,
    [None] for the result without a link. *)
Lemma external_urls_written_witness :
  succeeds_at pizza 0 (google_request (self fresh) "best pizza recipe") 0 search_results
  ∧ has_item_links search_results [PStr "https://example.org/pizza"; PNone]
  ∧ stores (new_events fresh (_fetch_from_google pizza "best pizza recipe" fresh).2) =
    [("external_urls", PList [PStr "https://example.org/pizza"; PNone])].
Proof.
  assert (Hs : succeeds_at pizza 0 (google_request (self fresh) "best pizza recipe") 0
                 search_results).
  { split; [intros i Hi; lia | by split]. }
  split; [exact Hs |]. split; [exact search_results_links |].
  apply (proj1 (external_urls_written pizza "best pizza recipe" fresh _ _
                  (surjective_pairing _)) 0%nat search_results);
    [simpl; lia | exact Hs | exact search_results_links].
Defined.

(** Counterexample to C10: a response of status 200 whose ["items"] list
    is empty still has ["external_urls"] written, with the empty list. *)
Lemma external_urls_written_for_empty_items :
  http_get (scripted [search_nothing]) 0
    (google_request (self fresh) "best pizza recipe") = Ok search_nothing
  ∧ status_code search_nothing = 200
  ∧ json search_nothing = Ok (PDict [("items", PList [])])
  ∧ stores (new_events fresh
              (_fetch_from_google (scripted [search_nothing]) "best pizza recipe" fresh).2) =
    [("external_urls", PList [])].
Proof. repeat split. Qed.

End Runs.

(** ** Endings of the retry loops *)
Section Endings.
Context (E : Env).

Lemma ending_exists n0 r n : ∃ x, ends E n0 r n x.
Proof.
  destruct (answers_cases E n0 r n) as [Hall | (k & Hk & [[resp Hs] | [e Hr]])].
  - by exists Exhausted.
  - by exists (Answered k resp).
  - by exists (Broken k e).
Qed.

Lemma ends_failed n0 r n x :
  ends E n0 r n x →
  all_fail E n0 r (failed_attempts n x) ∧ (failed_attempts n x ≤ n)%nat.
Proof.
  destruct x as [|k resp|k e]; simpl.
  - by split.
  - intros (Hk & Hf & _). split; [done | lia].
  - intros (Hk & Hf & _). split; [done | lia].
Qed.

Lemma sent_after_rounds a r lines w :
  sent (trace (after_rounds a r lines w)) = (sent (trace w) + length lines)%nat.
Proof.
  unfold after_rounds. simpl.
  change (Log ?l :: ?t) with ([Log l] ++ t).
  by rewrite app_assoc, sent_failed_rounds, sent_snoc_log.
Qed.

Lemma after_request_eq a r lines w :
  mk_world (self (after_rounds a r lines w))
           (trace (after_rounds a r lines w) ++ [Get r]) =
  after_request a r lines w.
Proof. unfold after_request, after_rounds. simpl. by rewrite <- app_assoc. Qed.

(** A run of [_fetch_from_google], by its ending. *)
Lemma google_ending q w x :
  let n := Z.to_nat (max_retries (self w)) in
  let r := google_request (self w) q in
  ends E (sent (trace w)) r n x →
  ∃ lines, length lines = failed_attempts n x ∧
    _fetch_from_google E q w =
    match x with
    | Exhausted =>
        (Ok ("Error: Google Search API request failed after " +:+
             pretty (max_retries (self w)) +:+ " attempts."),
         after_rounds Google r lines w)
    | Answered _ resp => google_digest E resp (after_request Google r lines w)
    | Broken _ e => (Raise e, after_request Google r lines w)
    end.
Proof.
  intros n r Hx. destruct (ends_failed _ _ _ _ Hx) as [Hfail Hle].
  unfold _fetch_from_google. repeat (rewrite bind_run; simpl).
  set (w0 := mk_world _ _). set (ps := [("q", _); _; _; _]).
  destruct (google_attempts_skip E ps (failed_attempts n x)
              (Py.range (max_retries (self w))) w0) as (lines & Hlen & ->).
  { subst w0. simpl. by rewrite sent_snoc_log. }
  { by rewrite length_range. }
  exists lines. split; [done |].
  subst w0 ps. simpl. rewrite <- app_assoc.
  change (mk_request (google_endpoint (self w)) _) with r.
  change (mk_world (self w) (trace w ++ _ ++ failed_rounds r lines))
    with (after_rounds Google r lines w).
  pose proof (after_request_eq Google r lines w) as Hafter.
  destruct x as [|k resp|k e]; cbn [failed_attempts ends] in *.
  - by rewrite drop_ge by (by rewrite length_range).
  - destruct Hx as (Hk & _ & Hresp & H200).
    destruct (drop_lt_cons (Py.range (max_retries (self w))) k) as (attempt & rest & ->).
    { by rewrite length_range. }
    rewrite <- Hafter. apply google_attempts_at_success; [| done].
    by rewrite sent_after_rounds, Hlen.
  - destruct Hx as (Hk & _ & Hresp).
    destruct (drop_lt_cons (Py.range (max_retries (self w))) k) as (attempt & rest & ->).
    { by rewrite length_range. }
    rewrite <- Hafter. apply google_attempts_at_raise.
    by rewrite sent_after_rounds, Hlen.
Qed.

Lemma nasa_attempts_at_success params attempt rest w resp :
  http_get E (sent (trace w)) (mk_request (nasa_endpoint (self w)) params) = Ok resp →
  status_code resp = 200 →
  nasa_attempts E params (attempt :: rest) w =
  (nasa_text E resp,
   mk_world (self w) (trace w ++ [Get (mk_request (nasa_endpoint (self w)) params)])).
Proof.
  intros Hresp Hstatus. simpl. repeat (rewrite bind_run; simpl). rewrite Hresp.
  destruct (decide (status_code resp = 200)) as [_|]; [| done].
  unfold nasa_text, lift. rewrite bind_run. simpl.
  destruct (json resp) as [data|e]; simpl; [| done].
  rewrite bind_run. simpl.
  destruct (Py.get data "title" _) as [title|e]; simpl; [| done].
  rewrite bind_run. simpl.
  by destruct (Py.get data "explanation" _) as [explanation|e].
Qed.

Lemma nasa_attempts_at_raise params attempt rest w e :
  http_get E (sent (trace w)) (mk_request (nasa_endpoint (self w)) params) = Raise e →
  nasa_attempts E params (attempt :: rest) w =
  (Raise e,
   mk_world (self w) (trace w ++ [Get (mk_request (nasa_endpoint (self w)) params)])).
Proof.
  intros Hresp. simpl. repeat (rewrite bind_run; simpl). by rewrite Hresp.
Qed.

(** A run of [_fetch_from_nasa], by its ending. *)
Lemma nasa_ending q w x :
  let n := Z.to_nat (max_retries (self w)) in
  let r := nasa_request (self w) in
  ends E (sent (trace w)) r n x →
  ∃ lines, length lines = failed_attempts n x ∧
    _fetch_from_nasa E q w =
    match x with
    | Exhausted =>
        (Ok ("Error: NASA API request failed after " +:+
             pretty (max_retries (self w)) +:+ " attempts."),
         after_rounds Nasa r lines w)
    | Answered _ resp => (nasa_text E resp, after_request Nasa r lines w)
    | Broken _ e => (Raise e, after_request Nasa r lines w)
    end.
Proof.
  intros n r Hx. destruct (ends_failed _ _ _ _ Hx) as [Hfail Hle].
  unfold _fetch_from_nasa. repeat (rewrite bind_run; simpl).
  set (w0 := mk_world _ _). set (ps := [("api_key", _); _]).
  destruct (nasa_attempts_skip E ps (failed_attempts n x)
              (Py.range (max_retries (self w))) w0) as (lines & Hlen & ->).
  { subst w0. simpl. by rewrite sent_snoc_log. }
  { by rewrite length_range. }
  exists lines. split; [done |].
  subst w0 ps. simpl. rewrite <- app_assoc.
  change (mk_request (nasa_endpoint (self w)) _) with r.
  change (mk_world (self w) (trace w ++ _ ++ failed_rounds r lines))
    with (after_rounds Nasa r lines w).
  pose proof (after_request_eq Nasa r lines w) as Hafter.
  destruct x as [|k resp|k e]; cbn [failed_attempts ends] in *.
  - by rewrite drop_ge by (by rewrite length_range).
  - destruct Hx as (Hk & _ & Hresp & H200).
    destruct (drop_lt_cons (Py.range (max_retries (self w))) k) as (attempt & rest & ->).
    { by rewrite length_range. }
    rewrite <- Hafter. apply nasa_attempts_at_success; [| done].
    by rewrite sent_after_rounds, Hlen.
  - destruct Hx as (Hk & _ & Hresp).
    destruct (drop_lt_cons (Py.range (max_retries (self w))) k) as (attempt & rest & ->).
    { by rewrite length_range. }
    rewrite <- Hafter. apply nasa_attempts_at_raise.
    by rewrite sent_after_rounds, Hlen.
Qed.

(** One turn of the loop over the entries, with its trace. *)
Lemma arxiv_entries_step threshold entry rest papers w :
  arxiv_entries E threshold (entry :: rest) papers w =
  arxiv_entries E threshold rest
    (if decide (threshold ≤ published_year E entry)
     then papers ++ [paper_of E entry] else papers)
    (mk_world (self w) (trace w ++ parse_error_events E entry)).
Proof.
  unfold paper_of, parsed_date_of, published_year, published_date, parse_error_events.
  simpl. rewrite bind_run.
  unfold datetime_strptime, time_strptime.
  destruct (strptime E (default "" (published entry)) DATE_FORMAT) as [msg|t]; simpl.
  - repeat case_decide; try lia; reflexivity.
  - destruct (Calendar.datetime_new _ _ _ _ _ _) as [d|e]; simpl.
    + unfold lift. rewrite ?bind_run. simpl. rewrite app_nil_r.
      repeat case_decide; try lia; try reflexivity.
      all: rewrite ?bind_run; simpl; by destruct w.
    + repeat case_decide; try lia; reflexivity.
Qed.

(** The loop over the entries, with its trace: one line for each entry
    whose date does not parse, in the order of the feed. *)
Lemma arxiv_entries_exact threshold entries : ∀ papers w,
  arxiv_entries E threshold entries papers w =
  (Ok (papers ++ map (paper_of E)
                   (filter (λ e, threshold ≤ published_year E e) entries)),
   mk_world (self w) (trace w ++ flat_map (parse_error_events E) entries)).
Proof.
  induction entries as [|entry rest IH]; intros papers w.
  - simpl. rewrite !app_nil_r. by destruct w.
  - rewrite arxiv_entries_step, IH. simpl. rewrite <- app_assoc.
    case_decide.
    + rewrite filter_cons_True by done. simpl. by rewrite <- app_assoc.
    + by rewrite filter_cons_False by done.
Qed.

Lemma arxiv_attempts_at_success url params attempt rest w resp :
  http_get E (sent (trace w)) (mk_request url params) = Ok resp →
  status_code resp = 200 →
  arxiv_attempts E url params (attempt :: rest) w =
  (Ok (Some resp), mk_world (self w) (trace w ++ [Get (mk_request url params)])).
Proof.
  intros Hresp Hstatus. simpl. repeat (rewrite bind_run; simpl). rewrite Hresp.
  by destruct (decide (status_code resp = 200)).
Qed.

Lemma arxiv_attempts_at_raise url params attempt rest w e :
  http_get E (sent (trace w)) (mk_request url params) = Raise e →
  arxiv_attempts E url params (attempt :: rest) w =
  (Raise e, mk_world (self w) (trace w ++ [Get (mk_request url params)])).
Proof.
  intros Hresp. simpl. repeat (rewrite bind_run; simpl). by rewrite Hresp.
Qed.

(** A run of [_fetch_from_arxiv], by its ending. *)
Lemma arxiv_ending q w x :
  let n := Z.to_nat (max_retries (self w)) in
  let r := arxiv_request q in
  ends E (sent (trace w)) r n x →
  ∃ lines, length lines = failed_attempts n x ∧
    _fetch_from_arxiv E q w =
    match x with
    | Exhausted =>
        (Ok [],
         mk_world (self w)
           (trace (after_rounds Arxiv r lines w) ++
            [Log "[APISelectionAgent] arXiv API request failed after retries"]))
    | Answered _ resp =>
        (Ok (papers_of E (threshold_of E w) (feed_entries resp)),
         mk_world (self w)
           (trace (after_request Arxiv r lines w) ++
            flat_map (parse_error_events E) (feed_entries resp)))
    | Broken _ e => (Raise e, after_request Arxiv r lines w)
    end.
Proof.
  intros n r Hx. destruct (ends_failed _ _ _ _ Hx) as [Hfail Hle].
  unfold _fetch_from_arxiv. repeat (rewrite bind_run; simpl).
  rewrite length_app, Nat.add_1_r. simpl. fold (threshold_of E w).
  set (w0 := mk_world _ _).
  destruct (arxiv_attempts_skip E (url r) (params r) (failed_attempts n x)
              (Py.range (max_retries (self w))) w0) as (lines & Hlen & Hrun).
  { subst w0. simpl. by rewrite sent_snoc_log. }
  { by rewrite length_range. }
  simpl in Hrun. rewrite Hrun. clear Hrun.
  exists lines. split; [done |].
  subst w0. simpl. rewrite <- app_assoc.
  change (mk_request "http://export.arxiv.org/api/query" _) with r.
  change (mk_world (self w) (trace w ++ _ ++ failed_rounds r lines))
    with (after_rounds Arxiv r lines w).
  pose proof (after_request_eq Arxiv r lines w) as Hafter.
  destruct x as [|k resp|k e]; cbn [failed_attempts ends] in *.
  - rewrite drop_ge by (by rewrite length_range). simpl.
    by repeat (rewrite bind_run; simpl).
  - destruct Hx as (Hk & _ & Hresp & H200).
    destruct (drop_lt_cons (Py.range (max_retries (self w))) k) as (attempt & rest & ->).
    { by rewrite length_range. }
    rewrite (arxiv_attempts_at_success (url r) (params r) attempt rest _ resp);
      [| by rewrite sent_after_rounds, Hlen | done].
    rewrite arxiv_entries_exact. simpl. unfold papers_of.
    do 3 f_equal. unfold after_request. simpl. by rewrite <- !app_assoc.
  - destruct Hx as (Hk & _ & Hresp).
    destruct (drop_lt_cons (Py.range (max_retries (self w))) k) as (attempt & rest & ->).
    { by rewrite length_range. }
    rewrite (arxiv_attempts_at_raise (url r) (params r) attempt rest _ e);
      [| by rewrite sent_after_rounds, Hlen].
    simpl. by rewrite <- Hafter.
Qed.

End Endings.

(** ** The cache and the object across calls *)
Section Object.
Context (E : Env).

(** What a call does to the object: nothing, or the insertion of its
    result under its query. *)
Lemma fetch_self q w :
  self (fetch_external_data E q w).2 = self w
  ∨ ∃ r, (fetch_external_data E q w).1 = Ok r
         ∧ cache (self w) !! q = None
         ∧ self (fetch_external_data E q w).2 =
           with_cache (self w) (<[q := r]> (cache (self w))).
Proof.
  destruct (cache (self w) !! q) as [r|] eqn:Hc.
  - left. by rewrite (fetch_hit _ _ _ _ Hc).
  - rewrite (fetch_miss _ _ _ Hc). fold (after_processing q w).
    pose proof (summary_call_self E q (after_processing q w)) as S1.
    destruct (summary_call E q (after_processing q w)) as [[data|e] w1];
      simpl in S1; [| by left].
    pose proof (arxiv_self E q w1) as S2.
    destruct (_fetch_from_arxiv E q w1) as [[papers|e] w2];
      simpl in S2; simpl; [| left; congruence].
    right. exists (composite data papers). rewrite S2, S1. by repeat split.
Qed.

(** X1. A call of [fetch_external_data] changes the cache at most under its
    own query: what is cached under any other text stays as it is, and
    no entry is ever dropped or replaced. *)
Theorem fetch_touches_own_key_only q w :
  (∀ q', q' ≠ q →
         cache (self (fetch_external_data E q w).2) !! q' = cache (self w) !! q')
  ∧ (∀ q' r, cache (self w) !! q' = Some r →
             cache (self (fetch_external_data E q w).2) !! q' = Some r).
Proof.
  destruct (fetch_self q w) as [-> | (r & _ & Hmiss & ->)]; [done |].
  split.
  - intros q' Hne. simpl. by rewrite lookup_insert_ne.
  - intros q' r' Hq'. simpl. rewrite lookup_insert_ne; [done | congruence].
Qed.

(** X3. A call never changes the configuration of the agent: its retry
    count, credentials and endpoints are after the call what they were
    before; only the cache may differ. *)
Theorem fetch_keeps_configuration q w :
  self (fetch_external_data E q w).2 =
  with_cache (self w) (cache (self (fetch_external_data E q w).2)).
Proof.
  destruct (fetch_self q w) as [-> | (r & _ & _ & ->)]; [| done].
  by destruct (self w).
Qed.

End Object.

Lemma fetch_series_keeps_entries calls : ∀ w q r,
  cache (self w) !! q = Some r → cache (self (fetch_series calls w)) !! q = Some r.
Proof.
  induction calls as [|[E' q'] rest IH]; intros w q r Hq; [done |].
  simpl. by apply IH, fetch_keeps_entries.
Qed.

(** X2. A query answered once is answered from the cache ever after: whatever
    is asked in between and whatever the services answer by then, asking
    it again returns the same composite as a cache hit, with the three
    events of a hit and no request. *)
Theorem answered_from_cache_ever_after E q w r w1 calls E' :
  fetch_external_data E q w = (Ok r, w1) →
  fetch_external_data E' q (fetch_series calls w1) =
  (Ok r, mk_world (self (fetch_series calls w1))
                  (trace (fetch_series calls w1) ++ hit_events q r)).
Proof.
  intros Hrun. apply fetch_hit, fetch_series_keeps_entries.
  by eapply fetch_ok_cached.
Qed.

(** ** What a call of an adapter costs *)
Section Cost.
Context (E : Env).

Lemma slept_app d1 d2 : slept (d1 ++ d2) = slept d1 + slept d2.
Proof.
  unfold slept. induction d1 as [|e d1 IH]; simpl; [done |].
  destruct e; lia.
Qed.

Lemma slept_failed_rounds r lines : slept (failed_rounds r lines) = Z.of_nat (length lines).
Proof.
  induction lines as [|line lines IH]; [done |].
  rewrite failed_rounds_cons, slept_app, IH. simpl length. unfold slept. simpl. lia.
Qed.

Lemma sent_failed_rounds_only r lines : sent (failed_rounds r lines) = length lines.
Proof. by rewrite <- (app_nil_l (failed_rounds r lines)), sent_failed_rounds. Qed.

Lemma notes_cost d : Forall is_note d → sent d = 0%nat ∧ slept d = 0.
Proof.
  induction 1 as [|e d He _ [IH1 IH2]]; [done |].
  change (e :: d) with ([e] ++ d). rewrite sent_app, slept_app, IH1, IH2.
  by destruct e.
Qed.

Lemma parse_errors_notes entries :
  Forall is_note (flat_map (parse_error_events E) entries).
Proof.
  induction entries as [|entry rest IH]; simpl; [constructor |].
  apply Forall_app. split; [| done]. unfold parse_error_events.
  destruct (datetime_strptime E _ _); repeat constructor.
Qed.

Lemma google_digest_notes resp w :
  ∃ tail, self (google_digest E resp w).2 = self w
          ∧ trace (google_digest E resp w).2 = trace w ++ tail
          ∧ Forall is_note tail.
Proof.
  destruct (google_digest_trace E resp w) as [Hs Ht].
  eexists. split; [done |]. split; [exact Ht |].
  destruct (google_links resp) as [[[top urls]|]|e]; repeat constructor.
Qed.

(** The trace of a call of an adapter, by its ending: the entry line, the
    failed rounds, the request that ended them, and then log lines and
    stores only. *)
Lemma call_trace a q w x :
  let n := Z.to_nat (max_retries (self w)) in
  let r := request_of a (self w) q in
  ends E (sent (trace w)) r n x →
  ∃ lines tail,
    length lines = failed_attempts n x
    ∧ self (call E a q w).2 = self w
    ∧ trace (call E a q w).2 =
        trace w ++ Log (entry_line a) :: failed_rounds r lines ++ last_request r x ++ tail
    ∧ Forall is_note tail
    ∧ (∀ k e, x = Broken k e → (call E a q w).1 = Raise e ∧ tail = []).
Proof.
  intros n r Hx.
  destruct a; simpl in *.
  - destruct (google_ending E q w x Hx) as (lines & Hlen & ->). fold r.
    exists lines. destruct x as [|k resp|k e]; simpl.
    + exists []. rewrite ?app_nil_r. repeat split; try done.
    + destruct (google_digest_notes resp (after_request Google r lines w))
        as (tail & Hs & Ht & Hn).
      exists tail. rewrite Ht, Hs. simpl. repeat split; try done.
      rewrite <- app_assoc. f_equal. simpl. f_equal. by rewrite <- app_assoc.
    + exists []. rewrite ?app_nil_r. repeat split; try done; try by simplify_eq.
  - destruct (nasa_ending E q w x Hx) as (lines & Hlen & ->). fold r.
    exists lines, []. rewrite ?app_nil_r.
    destruct x as [|k resp|k e]; simpl; rewrite ?app_nil_r;
      repeat split; try done; try by simplify_eq.
  - destruct (arxiv_ending E q w x Hx) as (lines & Hlen & ->). fold r.
    exists lines. destruct x as [|k resp|k e]; simpl.
    + exists [Log "[APISelectionAgent] arXiv API request failed after retries"].
      repeat split; try done; [| by apply Forall_singleton].
      by rewrite <- app_assoc.
    + exists (flat_map (parse_error_events E) (feed_entries resp)).
      repeat split; try done; [| apply parse_errors_notes].
      rewrite <- app_assoc. f_equal. simpl. f_equal. by rewrite <- app_assoc.
    + exists []. rewrite ?app_nil_r. repeat split; try done; try by simplify_eq.
Qed.

Lemma sent_last_request r x n : sent (last_request r x) = (requests_sent n x - failed_attempts n x)%nat.
Proof. destruct x; unfold sent; simpl; lia. Qed.

Lemma slept_last_request r x : slept (last_request r x) = 0.
Proof. by destruct x. Qed.

Lemma requests_sent_bounds E' n0 r n x :
  ends E' n0 r n x → (failed_attempts n x ≤ requests_sent n x ≤ n)%nat.
Proof. destruct x; simpl; [lia | intros [? _]; lia | intros [? _]; lia]. Qed.

(** Requests and seconds of sleep of a call of an adapter. *)
Lemma call_cost a q w x :
  let n := Z.to_nat (max_retries (self w)) in
  ends E (sent (trace w)) (request_of a (self w) q) n x →
  self (call E a q w).2 = self w
  ∧ sent (trace (call E a q w).2) = (sent (trace w) + requests_sent n x)%nat
  ∧ slept (trace (call E a q w).2) = slept (trace w) + Z.of_nat (failed_attempts n x).
Proof.
  intros n Hx.
  destruct (call_trace a q w x Hx) as (lines & tail & Hlen & Hself & -> & Hnotes & _).
  destruct (notes_cost tail Hnotes) as [Ht1 Ht2].
  pose proof (requests_sent_bounds _ _ _ _ _ Hx) as Hb. fold n in Hlen, Hb.
  split; [done |].
  change (Log ?l :: ?t) with ([Log l] ++ t).
  rewrite !sent_app, !slept_app, sent_failed_rounds_only, slept_failed_rounds,
    (sent_last_request _ _ n), slept_last_request, Ht1, Ht2, Hlen.
  split; [unfold sent; simpl | unfold slept; simpl]; lia.
Qed.

(** X6. Each adapter stops at the first attempt that does not fail: with [k]
    failed attempts before an answer of status 200 or an exception it
    sends [k + 1] requests, with all [n = max_retries] attempts failing
    it sends [n], never more; and it sleeps one second per failed
    attempt, none after the attempt that ends the loop. *)
Theorem adapter_stops_at_first_answer a q w x :
  let n := Z.to_nat (max_retries (self w)) in
  ends E (sent (trace w)) (request_of a (self w) q) n x →
  sent (trace (call E a q w).2) = (sent (trace w) + requests_sent n x)%nat
  ∧ (requests_sent n x ≤ n)%nat
  ∧ slept (trace (call E a q w).2) = slept (trace w) + Z.of_nat (failed_attempts n x).
Proof.
  intros n Hx. destruct (call_cost a q w x Hx) as (_ & Hsent & Hslept).
  split; [done |]. split; [| done]. by destruct (requests_sent_bounds _ _ _ _ _ Hx).
Qed.

(** X8. When [requests.get] raises, the exception leaves the adapter as it
    is, right after that request: the rounds of the attempts that failed
    before are on the trace, nothing is logged, stored or slept after. *)
Theorem transport_error_propagates a q w k e :
  let n := Z.to_nat (max_retries (self w)) in
  let r := request_of a (self w) q in
  (k < n)%nat →
  raises_at E (sent (trace w)) r k e →
  ∃ lines,
    length lines = k
    ∧ call E a q w =
      (Raise e,
       mk_world (self w)
         (trace w ++ Log (entry_line a) :: failed_rounds r lines ++ [Get r])).
Proof.
  intros n r Hk Hr.
  destruct (call_trace a q w (Broken k e)) as (lines & tail & Hlen & Hself & Htr & _ & Hb);
    [by split |].
  destruct (Hb k e eq_refl) as [Ho ->]. exists lines. split; [done |].
  destruct (call E a q w) as [o w']. simpl in *. subst o. f_equal.
  destruct w'. simpl in *. by subst.
Qed.

End Cost.

(** ** A whole call, counted *)
Section Whole.
Context (E : Env).



Lemma notes_snoc_cost tr d :
  Forall is_note d → sent (tr ++ d) = sent tr ∧ slept (tr ++ d) = slept tr.
Proof.
  intros Hd. destruct (notes_cost d Hd) as [H1 H2].
  rewrite sent_app, slept_app, H1, H2. split; lia.
Qed.


Lemma summary_exhausted q w :
  let n := Z.to_nat (max_retries (self w)) in
  let r := request_of (summary_adapter q) (self w) q in
  all_fail E (sent (trace w)) r n →
  ∃ lines, length lines = n ∧
    summary_call E q w =
    (Ok (summary_sentinel q (max_retries (self w))),
     after_rounds (summary_adapter q) r lines w).
Proof.
  intros n r Hfail. subst r.
  unfold summary_call, summary_sentinel, summary_adapter in *.
  destruct (is_space_query q).
  - by destruct (nasa_ending E q w Exhausted Hfail) as (lines & Hlen & ->); exists lines.
  - by destruct (google_ending E q w Exhausted Hfail) as (lines & Hlen & ->); exists lines.
Qed.

(** A cache miss on which every attempt of both adapters fails. *)
Lemma fetch_exhausted q w :
  let n := Z.to_nat (max_retries (self w)) in
  let r := request_of (summary_adapter q) (self w) q in
  let result := composite (summary_sentinel q (max_retries (self w))) [] in
  cache (self w) !! q = None →
  all_fail E (sent (trace w)) r n →
  all_fail E (sent (trace w) + n) (arxiv_request q) n →
  ∃ lines1 lines2,
    length lines1 = n ∧ length lines2 = n
    ∧ fetch_external_data E q w =
      (Ok result,
       mk_world (with_cache (self w) (<[q := result]> (cache (self w))))
         (trace w ++ Log (processing_line q)
            :: Log (entry_line (summary_adapter q)) :: failed_rounds r lines1
            ++ Log (entry_line Arxiv) :: failed_rounds (arxiv_request q) lines2
            ++ Log "[APISelectionAgent] arXiv API request failed after retries"
            :: closing_events (summary_sentinel q (max_retries (self w))) [])).
Proof.
  intros n r result Hmiss Hfail1 Hfail2.
  rewrite (fetch_miss _ _ _ Hmiss). fold (after_processing q w).
  destruct (summary_exhausted q (after_processing q w)) as (lines1 & Hlen1 & ->).
  { simpl. by rewrite sent_snoc_log. }
  simpl in Hlen1. fold n r in Hlen1. simpl self. fold r.
  set (w1 := after_rounds _ _ _ _).
  destruct (arxiv_ending E q w1 Exhausted) as (lines2 & Hlen2 & ->).
  { unfold w1. cbn [ends]. rewrite sent_after_rounds. simpl.
    by rewrite sent_snoc_log, Hlen1. }
  simpl in Hlen2. fold n in Hlen2.
  exists lines1, lines2. split; [done |]. split; [done |].
  f_equal. unfold w1, after_rounds. simpl. f_equal.
  by repeat (rewrite <- app_assoc || rewrite <- app_comm_cons).
Qed.

(** X4. An outage is remembered. When every attempt of the summary adapter
    and of the feed adapter fails, the call still returns (the sentinel
    text and no papers) and caches that composite like any other; asked
    again, the agent answers with it from the cache, whatever the
    services would answer by then. *)
Theorem outage_is_cached q w :
  let n := Z.to_nat (max_retries (self w)) in
  let result := composite (summary_sentinel q (max_retries (self w))) [] in
  cache (self w) !! q = None →
  all_fail E (sent (trace w)) (request_of (summary_adapter q) (self w) q) n →
  all_fail E (sent (trace w) + n) (arxiv_request q) n →
  (fetch_external_data E q w).1 = Ok result
  ∧ cache (self (fetch_external_data E q w).2) !! q = Some result
  ∧ ∀ E', (fetch_external_data E' q (fetch_external_data E q w).2).1 = Ok result
          ∧ sent (trace (fetch_external_data E' q (fetch_external_data E q w).2).2) =
            sent (trace (fetch_external_data E q w).2).
Proof.
  intros n result Hmiss Hfail1 Hfail2.
  destruct (fetch_exhausted q w Hmiss Hfail1 Hfail2) as (l1 & l2 & _ & _ & Hrun).
  fold result in Hrun. rewrite Hrun. simpl.
  assert (Hc : <[q:=result]> (cache (self w)) !! q = Some result) by apply lookup_insert_eq.
  split; [done |]. split; [done |]. intros E'.
  rewrite (fetch_hit E' q _ result) by done. simpl. split; [done |].
  by apply notes_snoc_cost; repeat constructor.
Qed.

(** X5. With a retry count of zero or less no attempt is made: on a cache
    miss the call sends no request and does not sleep, returns the
    sentinel text naming that count with no papers, and caches it. Its
    events are six log lines (the query, the entry of the summary adapter,
    the entry of the feed adapter and its failure, the count of papers,
    the caching) and then the store of the result. *)
Theorem no_attempts_without_retries q w :
  let result := composite (summary_sentinel q (max_retries (self w))) [] in
  max_retries (self w) ≤ 0 →
  cache (self w) !! q = None →
  fetch_external_data E q w =
  (Ok result,
   mk_world (with_cache (self w) (<[q := result]> (cache (self w))))
     (trace w ++
      [ Log (processing_line q);
        Log (entry_line (summary_adapter q));
        Log (entry_line Arxiv);
        Log "[APISelectionAgent] arXiv API request failed after retries" ] ++
      closing_events (summary_sentinel q (max_retries (self w))) [])).
Proof.
  intros result Hn Hmiss.
  assert (H0 : Z.to_nat (max_retries (self w)) = 0%nat) by lia.
  destruct (fetch_exhausted q w Hmiss) as (l1 & l2 & Hl1 & Hl2 & ->).
  { rewrite H0. apply all_fail_0. }
  { rewrite H0. apply all_fail_0. }
  rewrite H0 in Hl1, Hl2.
  destruct l1; [| done]. by destruct l2.
Qed.

End Whole.

(** ** What reaches the sink *)

Lemma no_data_store_log line : no_data_store (Log line).
Proof. by intros v. Qed.
Lemma no_data_store_get r : no_data_store (Get r).
Proof. by intros v. Qed.
Lemma no_data_store_sleep n : no_data_store (Sleep n).
Proof. by intros v. Qed.
Lemma no_data_store_urls v : no_data_store (Store "external_urls" v).
Proof. by intros v'. Qed.

Ltac emits_no_data :=
  first
    [ assumption
    | apply emits_bind; [| intros ? ]
    | apply emits_ret | apply emits_lift | apply emits_attr
    | apply emits_current_year
    | apply emits_requests_get; apply no_data_store_get
    | apply emits_emit;
      first [ apply no_data_store_log | apply no_data_store_sleep
            | apply no_data_store_urls ]
    | progress case_match ].

Section Sink.
Context (E : Env).

Lemma google_no_data q : emits no_data_store (_fetch_from_google E q).
Proof.
  unfold _fetch_from_google. repeat emits_no_data.
  match goal with |- emits _ (google_attempts _ ?ps ?l) => generalize ps l end.
  intros ps l. induction l as [|attempt rest IH]; simpl; repeat emits_no_data.
Qed.

Lemma nasa_no_data q : emits no_data_store (_fetch_from_nasa E q).
Proof.
  unfold _fetch_from_nasa. repeat emits_no_data.
  match goal with |- emits _ (nasa_attempts _ ?ps ?l) => generalize ps l end.
  intros ps l. induction l as [|attempt rest IH]; simpl; repeat emits_no_data.
Qed.

Lemma arxiv_no_data q : emits no_data_store (_fetch_from_arxiv E q).
Proof.
  unfold _fetch_from_arxiv. repeat emits_no_data.
  - match goal with |- emits _ (arxiv_attempts _ ?u ?ps ?l) => generalize u ps l end.
    intros u ps l. induction l as [|attempt rest IH]; simpl; repeat emits_no_data.
  - match goal with |- emits _ (arxiv_entries _ ?t ?l ?p) => generalize t l p end.
    intros t l. induction l as [|entry rest IH]; intros p; simpl;
      repeat emits_no_data; apply IH.
Qed.

Lemma summary_no_data q : emits no_data_store (summary_call E q).
Proof.
  unfold summary_call. destruct (summary_adapter q);
    auto using google_no_data, nasa_no_data.
Qed.

Lemma stored_under_app key d1 d2 :
  stored_under key (d1 ++ d2) = stored_under key d1 ++ stored_under key d2.
Proof. unfold stored_under. by rewrite flat_map_app. Qed.

Lemma stored_under_none d :
  Forall no_data_store d → stored_under "external_data" d = [].
Proof.
  induction 1 as [|e d He _ IH]; [done |]. simpl. rewrite IH.
  destruct e as [|key v| |]; try done. case_decide; [| done].
  subst key. by destruct (He v).
Qed.

(** X9. A call that returns hands its result to the sink exactly once, under
    ["external_data"] and as the last thing it does; a call that ends in
    an exception stores nothing under that key. *)
Theorem result_stored_once q w :
  let d := new_events w (fetch_external_data E q w).2 in
  match (fetch_external_data E q w).1 with
  | Ok r => stored_under "external_data" d = [r]
            ∧ last d = Some (Store "external_data" r)
  | Raise _ => stored_under "external_data" d = []
  end.
Proof.
  intros d. subst d.
  destruct (cache (self w) !! q) as [r|] eqn:Hc.
  - rewrite (fetch_hit _ _ _ _ Hc). simpl.
    by erewrite new_events_eq by reflexivity.
  - rewrite (fetch_miss _ _ _ Hc). fold (after_processing q w).
    destruct (summary_no_data q (after_processing q w)) as (d1 & [_ T1] & F1).
    destruct (summary_call E q (after_processing q w)) as [[data|e] w1]; simpl in *.
    2:{ erewrite new_events_eq; last by (rewrite T1, <- app_assoc).
        simpl. by apply stored_under_none. }
    destruct (arxiv_no_data q w1) as (d2 & [_ T2] & F2).
    destruct (_fetch_from_arxiv E q w1) as [[papers|e] w2]; simpl in *.
    2:{ erewrite new_events_eq; last by (rewrite T2, T1, <- !app_assoc).
        simpl. rewrite stored_under_app. by rewrite !stored_under_none. }
    erewrite new_events_eq; last by (rewrite T2, T1, <- !app_assoc).
    split.
    + change (Log ?l :: ?t) with ([Log l] ++ t).
      rewrite !stored_under_app, (stored_under_none d1), (stored_under_none d2) by done.
      reflexivity.
    + unfold closing_events. rewrite !app_assoc.
      change [?a; ?b; ?c] with ([a; b] ++ [c]). rewrite app_assoc. apply last_snoc.
Qed.

End Sink.

(** ** What the summary adapters make of an answer *)
Section Answers.
Context (E : Env).

(** X10. The astronomy adapter, answered with a JSON object at its attempt
    [k], returns the three-line text of its title and explanation, with
    the placeholder texts for the members the object lacks; it sent
    [k + 1] requests and stored nothing. *)
Theorem nasa_text_with_defaults q w k resp fields :
  let n := Z.to_nat (max_retries (self w)) in
  let r := nasa_request (self w) in
  (k < n)%nat →
  succeeds_at E (sent (trace w)) r k resp →
  json resp = Ok (PDict fields) →
  ∃ lines,
    length lines = k
    ∧ _fetch_from_nasa E q w =
      (Ok ("NASA APOD" +:+ LF +:+
           "Title: " +:+
             str E (default (PStr "No title provided.") (Py.lookup_key "title" fields)) +:+
             LF +:+
           "Explanation: " +:+
             str E (default (PStr "No explanation available.")
                            (Py.lookup_key "explanation" fields)) +:+ LF),
       after_request Nasa r lines w).
Proof.
  intros n r Hk Hs Hjson.
  destruct (nasa_ending E q w (Answered k resp)) as (lines & Hlen & ->); [by split |].
  exists lines. split; [done |]. unfold nasa_text. by rewrite Hjson.
Qed.

(** X11. The astronomy adapter does not guard the body of an answer of status
    200: when it is no JSON the exception of [response.json()] leaves the
    adapter, and when it is JSON but no object (a list, a text, a number,
    null) an [AttributeError] does. *)
Theorem nasa_raises_on_bad_body q w k resp :
  let n := Z.to_nat (max_retries (self w)) in
  (k < n)%nat →
  succeeds_at E (sent (trace w)) (nasa_request (self w)) k resp →
  (∀ e, json resp = Raise e → (_fetch_from_nasa E q w).1 = Raise e)
  ∧ (∀ v, json resp = Ok v → ¬ is_dict v →
          ∃ e, (_fetch_from_nasa E q w).1 = Raise e ∧ exn_type e = AttributeError).
Proof.
  intros n Hk Hs.
  destruct (nasa_ending E q w (Answered k resp)) as (lines & Hlen & ->); [by split |].
  unfold nasa_text. split.
  - by intros e ->.
  - intros v -> Hv. destruct v; simpl; eauto. destruct Hv. by eexists.
Qed.

Lemma map_outcome_blocks results :
  Py.map_outcome (google_block E) (map PDict results) = Ok (map (block_of E) results).
Proof.
  induction results as [|f rest IH]; [done |]. simpl. by rewrite IH.
Qed.

Lemma map_outcome_link_fields results :
  ∃ urls, Py.map_outcome (λ res, Py.get res "link" PNone) (map PDict results) = Ok urls.
Proof.
  induction results as [|f rest [urls IH]]; simpl; [eauto |]. rewrite IH. simpl. eauto.
Qed.

(** X12. The web-search adapter, answered with status 200 at its attempt [k]:
    a body in which ["items"] is not found (an object without that
    member, but also a list or a text without it) gives the fixed text
    "No web results found."; a list of objects under ["items"] gives one
    block of title, link and snippet per result, in their order, joined
    by a line feed ([None] printed for a member a result lacks). *)
Theorem google_text_of_results q w k resp v :
  let n := Z.to_nat (max_retries (self w)) in
  (k < n)%nat →
  succeeds_at E (sent (trace w)) (google_request (self w) q) k resp →
  json resp = Ok v →
  (Py.contains "items" v = Ok false →
   (_fetch_from_google E q w).1 = Ok "No web results found.")
  ∧ (∀ fields results,
       v = PDict fields →
       Py.lookup_key "items" fields = Some (PList (map PDict results)) →
       (_fetch_from_google E q w).1 = Ok (PyStr.join LF (map (block_of E) results))).
Proof.
  intros n Hk Hs Hjson.
  destruct (google_ending E q w (Answered k resp)) as (lines & Hlen & ->); [by split |].
  unfold google_digest, google_links. rewrite Hjson. simpl. split.
  - by intros ->.
  - intros fields results -> Hitems. simpl. rewrite Hitems. simpl.
    unfold Py.comprehension. simpl.
    destruct (map_outcome_link_fields results) as [urls ->]. simpl.
    by rewrite map_outcome_blocks.
Qed.

End Answers.

(** ** The papers of the feed *)
Section Papers.
Context (E : Env).

Lemma arxiv_papers_cases q w papers w' :
  _fetch_from_arxiv E q w = (Ok papers, w') →
  papers = [] ∨ ∃ resp, papers = papers_of E (threshold_of E w) (feed_entries resp).
Proof.
  destruct (ending_exists E (sent (trace w)) (arxiv_request q)
              (Z.to_nat (max_retries (self w)))) as [x Hx].
  destruct (arxiv_ending E q w x Hx) as (lines & _ & ->).
  destruct x as [|k resp|k e]; intros [= <- <-]; eauto.
Qed.

(** X13. Every paper the feed adapter returns carries a year not before the
    threshold, the year of the clock minus 5, whatever the feed held and
    whatever the clock reads. *)
Theorem papers_are_recent q w papers w' :
  _fetch_from_arxiv E q w = (Ok papers, w') →
  Forall (λ p, ∃ y, Py.get p "year" PNone = Ok (PInt y)
                    ∧ now_year E (S (length (trace w))) - 5 ≤ y) papers.
Proof.
  intros Hrun. destruct (arxiv_papers_cases _ _ _ _ Hrun) as [-> | [resp ->]];
    [constructor |].
  unfold papers_of. apply Forall_map, Forall_forall. intros entry Hin.
  apply list_elem_of_filter in Hin as [Hy _].
  exists (published_year E entry). by split.
Qed.

Lemma datetime_new_year y m d H M S dt :
  Calendar.datetime_new y m d H M S = Ok dt → year dt = y.
Proof.
  unfold Calendar.datetime_new. repeat case_match; try done. by intros [= <-].
Qed.

(** The two readings of the date of an entry agree, or both fall back. *)
Lemma entry_dates entry :
  (∃ t, strptime E (default "" (published entry)) DATE_FORMAT = inr t
        ∧ published_year E entry = tm_year t
        ∧ parsed_date_of E entry = t)
  ∨ (published_date E entry = None
     ∧ published_year E entry = 0
     ∧ parsed_date_of E entry = Calendar.gmtime_0).
Proof.
  unfold published_year, parsed_date_of, published_date, datetime_strptime, time_strptime.
  destruct (strptime E _ _) as [msg|t]; simpl; [by right |].
  destruct (Calendar.datetime_new _ _ _ _ _ _) as [dt|e] eqn:Hnew; simpl; [| by right].
  left. exists t. split; [done |]. split; [| done].
  by eapply datetime_new_year.
Qed.

(** X14. In a returned paper the year and the [parsed_date] tell the same
    date: [parsed_date] is the [published] text of the paper as
    [time.strptime] reads it, and the year is its [tm_year]. The one
    exception needs a threshold of 0 or less, a clock before year 6: then
    a paper whose text does not parse is kept with year 0 and the epoch
    of 1970 as its [parsed_date]. *)
Theorem paper_dates_agree q w papers w' :
  _fetch_from_arxiv E q w = (Ok papers, w') →
  Forall (λ p, ∃ s y t,
            Py.get p "published" PNone = Ok (PStr s)
            ∧ Py.get p "year" PNone = Ok (PInt y)
            ∧ Py.get p "parsed_date" PNone = Ok (PTime t)
            ∧ ((strptime E s DATE_FORMAT = inr t ∧ y = tm_year t)
               ∨ (now_year E (S (length (trace w))) ≤ 5
                  ∧ y = 0 ∧ t = Calendar.gmtime_0))) papers.
Proof.
  intros Hrun. destruct (arxiv_papers_cases _ _ _ _ Hrun) as [-> | [resp ->]];
    [constructor |].
  unfold papers_of. apply Forall_map, Forall_forall. intros entry Hin.
  apply list_elem_of_filter in Hin as [Hy _].
  exists (default "" (published entry)), (published_year E entry), (parsed_date_of E entry).
  do 3 (split; [done |]).
  destruct (entry_dates entry) as [(t & Hs & Hyear & Hdate) | (_ & Hyear & Hdate)].
  - left. by rewrite Hdate.
  - right. unfold threshold_of in Hy. rewrite Hyear in Hy. repeat split; [lia | done..].
Qed.

Lemma parse_error_count entries :
  length (flat_map (parse_error_events E) entries) =
  length (filter (λ e, negb (date_parses E e)) entries).
Proof.
  induction entries as [|entry rest IH]; [done |].
  simpl. rewrite length_app, IH.
  assert (Hd : date_parses E entry =
               match datetime_strptime E (default "" (published entry)) DATE_FORMAT with
               | Ok _ => true
               | Raise _ => false
               end)
    by (unfold date_parses, published_date; by destruct (datetime_strptime E _ _)).
  unfold parse_error_events.
  destruct (datetime_strptime E _ _); simpl.
  - rewrite filter_cons_False; [done | rewrite Hd; exact id].
  - rewrite filter_cons_True; [done | rewrite Hd; exact I].
Qed.

(** X15. A malformed record does not abort the batch. When the feed is fetched
    at attempt [k], the adapter logs one line for each entry whose date
    does not parse, in the order of the feed and after the request, and
    returns the papers of the other entries that are recent. *)
Theorem parse_errors_logged q w k resp :
  let n := Z.to_nat (max_retries (self w)) in
  let r := arxiv_request q in
  (k < n)%nat →
  succeeds_at E (sent (trace w)) r k resp →
  ∃ lines,
    length lines = k
    ∧ (_fetch_from_arxiv E q w).1 =
      Ok (papers_of E (now_year E (S (length (trace w))) - 5) (feed_entries resp))
    ∧ new_events w (_fetch_from_arxiv E q w).2 =
      Log (entry_line Arxiv) :: failed_rounds r lines ++ [Get r] ++
      flat_map (parse_error_events E) (feed_entries resp)
    ∧ length (flat_map (parse_error_events E) (feed_entries resp)) =
      length (filter (λ e, negb (date_parses E e)) (feed_entries resp)).
Proof.
  intros n r Hk Hs.
  destruct (arxiv_ending E q w (Answered k resp)) as (lines & Hlen & ->); [by split |].
  exists lines. split; [done |]. split; [done |]. split; [| apply parse_error_count].
  apply new_events_eq. unfold after_request. simpl.
  by repeat (rewrite <- app_assoc || rewrite <- app_comm_cons).
Qed.

End Papers.

(** ** The router, once more *)

Lemma append_assoc s t u : (s +:+ t) +:+ u = s +:+ t +:+ u.
Proof. induction s as [|c s IH]; [done |]. by rewrite !append_cons, IH. Qed.

Lemma length_append s t :
  String.length (s +:+ t) = (String.length s + String.length t)%nat.
Proof. induction s as [|c s IH]; [done |]. rewrite append_cons. simpl. by rewrite IH. Qed.

Lemma lower_char_idem c : PyStr.lower_char (PyStr.lower_char c) = PyStr.lower_char c.
Proof. by destruct c as [[] [] [] [] [] [] [] []]. Qed.

Lemma lower_idem s : PyStr.lower (PyStr.lower s) = PyStr.lower s.
Proof. induction s as [|c s IH]; [done |]. simpl. by rewrite lower_char_idem, IH. Qed.

Lemma lower_append s t : PyStr.lower (s +:+ t) = PyStr.lower s +:+ PyStr.lower t.
Proof. induction s as [|c s IH]; [done |]. rewrite !append_cons. simpl. by rewrite IH, append_cons. Qed.

Lemma contains_length needle hay :
  PyStr.contains needle hay = true → (String.length needle ≤ String.length hay)%nat.
Proof.
  intros H. apply contains_spec in H as (pre & post & ->).
  rewrite !length_append. lia.
Qed.

(** X16. The routing of a query looks at nothing but the keywords in it.
    Padding a space-related query with any text before or after leaves it
    space-related; lowercasing a query does not change its route; and a
    query of fewer than four characters, the empty one included, always
    goes to the web search. *)
Theorem router_stable q :
  (∀ pre post, is_space_query q = true → is_space_query (pre +:+ q +:+ post) = true)
  ∧ is_space_query (PyStr.lower q) = is_space_query q
  ∧ ((String.length q < 4)%nat → is_space_query q = false).
Proof.
  split; [| split].
  - intros pre post. rewrite !is_space_query_spec.
    intros (keyword & Hin & p1 & p2 & Hq). exists keyword. split; [done |].
    exists (PyStr.lower pre +:+ p1), (p2 +:+ PyStr.lower post).
    by rewrite !lower_append, Hq, !append_assoc.
  - unfold is_space_query. by rewrite lower_idem.
  - intros Hlen. apply not_true_is_false. rewrite is_space_query_spec.
    intros (keyword & Hin & p1 & p2 & Hq).
    assert (Hl : String.length (PyStr.lower q) = String.length q).
    { clear. induction q as [|c s IH]; [done |]. simpl. by rewrite IH. }
    rewrite Hq, !length_append in Hl.
    assert (4 ≤ String.length keyword)%nat; [| lia].
    unfold space_keywords in Hin.
    repeat (apply elem_of_cons in Hin as [-> | Hin]; [simpl; lia |]).
    by apply elem_of_nil in Hin.
Qed.

(** ** The first request of an adapter *)
Section FirstRequest.
Context (E : Env).

Lemma failed_rounds_head r lines rest :
  lines ≠ [] → (failed_rounds r lines ++ rest) !! 0%nat = Some (Get r).
Proof. by destruct lines. Qed.

(** With at least one attempt allowed, the first thing an adapter does
    after its entry line is to send its request. *)
Lemma first_request a q w :
  0 < max_retries (self w) →
  new_events w (call E a q w).2 !! 1%nat = Some (Get (request_of a (self w) q)).
Proof.
  intros Hn.
  destruct (ending_exists E (sent (trace w)) (request_of a (self w) q)
              (Z.to_nat (max_retries (self w)))) as [x Hx].
  destruct (call_trace E a q w x Hx) as (lines & tail & Hlen & _ & Htr & _).
  rewrite (new_events_eq _ _ _ Htr). simpl.
  destruct lines as [|line lines]; [| done].
  destruct x as [|k resp|k e]; simpl in *; [lia | done..].
Qed.

(** X17. The requests of an agent carry the credentials [__init__] read from
    the environment, and the placeholder texts for those that are not
    set: the agent does not fail for want of a key, it sends the
    placeholder. *)
Theorem requests_carry_credentials getenv retries tr q :
  let w := mk_world (__init__ getenv retries) tr in
  0 < default 2 retries →
  new_events w (_fetch_from_google E q w).2 !! 1%nat =
    Some (Get (mk_request "https://www.googleapis.com/customsearch/v1"
                 [("q", PStr q);
                  ("key", PStr (default "YOUR_GOOGLE_API_KEY" (getenv "GOOGLE_API_KEY")));
                  ("cx", PStr (default "YOUR_GOOGLE_CX" (getenv "GOOGLE_CX")));
                  ("num", PInt 5)]))
  ∧ new_events w (_fetch_from_nasa E q w).2 !! 1%nat =
    Some (Get (mk_request "https://api.nasa.gov/planetary/apod"
                 [("api_key", PStr (default "YOUR_NASA_API_KEY" (getenv "NASA_API_KEY")));
                  ("hd", PBool true)])).
Proof.
  intros w Hn. split.
  - exact (first_request Google q w Hn).
  - exact (first_request Nasa q w Hn).
Qed.

End FirstRequest.

(** ** The further scenarios, run *)
Module MoreRuns.
Import Scenario Incidents.

(** The pizza call leaves the asteroid query uncached. *)
Lemma fetch_touches_own_key_only_witness :
  cache (self pizza_call.2) !! "latest asteroid discovery" =
  cache (self fresh) !! "latest asteroid discovery".
Proof.
  apply (proj1 (fetch_touches_own_key_only pizza "best pizza recipe" fresh)). done.
Defined.

(** The pizza query asked again after two other calls, during an outage. *)
Lemma answered_from_cache_ever_after_witness :
  let later := fetch_series [(asteroid, "latest asteroid discovery");
                             (outage, "best pasta recipe")] pizza_call.2 in
  pizza_call = (Ok pizza_result, pizza_call.2)
  ∧ fetch_external_data outage "best pizza recipe" later =
    (Ok pizza_result,
     mk_world (self later) (trace later ++ hit_events "best pizza recipe" pizza_result)).
Proof.
  split; [exact Runs.pizza_call_eq |].
  exact (answered_from_cache_ever_after pizza "best pizza recipe" fresh pizza_result
           pizza_call.2 _ outage Runs.pizza_call_eq).
Defined.

(** Nothing answers: the sentinel is cached and served again when the
    services are back. *)
Lemma outage_is_cached_witness :
  (fetch_external_data outage "best pizza recipe" fresh).1 =
    Ok (composite "Error: Google Search API request failed after 2 attempts." [])
  ∧ (fetch_external_data pizza "best pizza recipe"
       (fetch_external_data outage "best pizza recipe" fresh).2).1 =
    Ok (composite "Error: Google Search API request failed after 2 attempts." []).
Proof.
  destruct (outage_is_cached outage "best pizza recipe" fresh (Runs.fresh_miss _)
              (Runs.outage_all_fail _ _ _) (Runs.outage_all_fail _ _ _))
    as (H1 & _ & H2).
  split; [exact H1 | exact (proj1 (H2 pizza))].
Defined.

(** A retry count of 0: the call returns the sentinel naming 0 attempts,
    though the services of this scenario would answer. *)
Lemma no_attempts_without_retries_witness :
  max_retries (self no_retries) ≤ 0
  ∧ (fetch_external_data pizza "best pizza recipe" no_retries).1 =
    Ok (composite "Error: Google Search API request failed after 0 attempts." []).
Proof.
  split; [done |].
  by rewrite (no_attempts_without_retries pizza "best pizza recipe" no_retries).
Defined.

(** The feed answered at the second attempt: two requests, one second of
    sleep. *)
Lemma adapter_stops_at_first_answer_witness :
  ends (second_try feed) 0 (arxiv_request "best pizza recipe") 2 (Answered 1 feed)
  ∧ sent (trace (call (second_try feed) Arxiv "best pizza recipe" fresh).2) = 2%nat
  ∧ slept (trace (call (second_try feed) Arxiv "best pizza recipe" fresh).2) = 1.
Proof.
  assert (Hx : ends (second_try feed) 0 (arxiv_request "best pizza recipe") 2
                 (Answered 1 feed)).
  { split; [lia | by apply Runs.second_try_succeeds]. }
  split; [exact Hx |].
  destruct (adapter_stops_at_first_answer (second_try feed) Arxiv "best pizza recipe"
              fresh (Answered 1 feed) Hx) as (H1 & _ & H2).
  split; [exact H1 | exact H2].
Defined.


Lemma cut_off_raises r : raises_at cut_off 0 r 1 connection_error.
Proof.
  split; [| done]. intros i Hi. exists unavailable.
  by replace i with 0%nat by lia.
Qed.

(** The connection breaks on the second attempt of the web search. *)
Lemma transport_error_propagates_witness :
  raises_at cut_off 0 (google_request (self fresh) "best pizza recipe") 1 connection_error
  ∧ (_fetch_from_google cut_off "best pizza recipe" fresh).1 = Raise connection_error.
Proof.
  split; [apply cut_off_raises |].
  destruct (transport_error_propagates cut_off Google "best pizza recipe" fresh 1
              connection_error) as (lines & _ & Hrun).
  - simpl. lia.
  - apply cut_off_raises.
  - unfold call in Hrun. apply (f_equal fst) in Hrun. cbn [fst] in Hrun.
    destruct (_fetch_from_google cut_off "best pizza recipe" fresh).1 as [text|e];
      cbn [as_value] in Hrun; congruence.
Defined.

Lemma first_answer answer script r :
  status_code answer = 200 → succeeds_at (scripted (answer :: script)) 0 r 0 answer.
Proof. intros H200. split; [intros i Hi; lia | by split]. Qed.

(** A picture of the day without a title. *)
Lemma nasa_text_with_defaults_witness :
  (_fetch_from_nasa (scripted [apod_untitled]) "latest asteroid discovery" fresh).1 =
  Ok ("NASA APOD" +:+ LF +:+ "Title: No title provided." +:+ LF +:+
      "Explanation: A rubble pile seen from orbit." +:+ LF).
Proof.
  destruct (nasa_text_with_defaults (scripted [apod_untitled]) "latest asteroid discovery"
              fresh 0 apod_untitled _ ltac:(simpl; lia)
              (first_answer apod_untitled [] _ eq_refl) eq_refl)
    as (lines & _ & ->).
  reflexivity.
Defined.

(** A JSON list where the picture of the day was expected. *)
Lemma nasa_raises_on_bad_body_witness :
  ∃ e, (_fetch_from_nasa (scripted [list_body]) "latest asteroid discovery" fresh).1 = Raise e
       ∧ exn_type e = AttributeError.
Proof.
  apply (proj2 (nasa_raises_on_bad_body (scripted [list_body]) "latest asteroid discovery"
                  fresh 0 list_body ltac:(simpl; lia)
                  (first_answer list_body [] _ eq_refl))
           (PList [PStr "rate limit exceeded"]) eq_refl).
  by intros [fields ?].
Defined.

(** A JSON list where search results were expected is read as "no
    results". *)
Lemma google_text_of_results_witness :
  (_fetch_from_google (scripted [list_body]) "best pizza recipe" fresh).1 =
    Ok "No web results found."
  ∧ (_fetch_from_google pizza "best pizza recipe" fresh).1 =
    Ok (PyStr.join LF
          (map (block_of pizza)
             [ [("title", PStr "Neapolitan pizza");
                ("link", PStr "https://example.org/pizza");
                ("snippet", PStr "Flour, water, salt, yeast.")];
               [("title", PStr "Pizza dough"); ("snippet", PStr "Rest it overnight.")] ])).
Proof.
  split.
  - apply (proj1 (google_text_of_results (scripted [list_body]) "best pizza recipe" fresh 0
                    list_body _ ltac:(simpl; lia)
                    (first_answer list_body [] _ eq_refl) eq_refl)).
    reflexivity.
  - apply (proj2 (google_text_of_results pizza "best pizza recipe" fresh 0
                    search_results _ ltac:(simpl; lia)
                    (first_answer search_results [feed] _ eq_refl) eq_refl)
             _ _ eq_refl).
    reflexivity.
Defined.

Lemma feed_call_eq : feed_call = (Ok feed_papers, feed_call.2).
Proof. vm_compute. reflexivity. Qed.

(** The papers of the feed of four entries, in 2025. *)
Lemma papers_are_recent_witness :
  feed_call = (Ok feed_papers, feed_call.2)
  ∧ Forall (λ p, ∃ y, Py.get p "year" PNone = Ok (PInt y) ∧ 2025 - 5 ≤ y) feed_papers.
Proof.
  split; [exact feed_call_eq |].
  exact (papers_are_recent (scripted [feed]) "best pizza recipe" fresh feed_papers
           feed_call.2 feed_call_eq).
Defined.

Lemma paper_dates_agree_witness :
  feed_call = (Ok feed_papers, feed_call.2)
  ∧ Forall (λ p, ∃ s y t,
              Py.get p "published" PNone = Ok (PStr s)
              ∧ Py.get p "year" PNone = Ok (PInt y)
              ∧ Py.get p "parsed_date" PNone = Ok (PTime t)
              ∧ ((Strptime.strptime s DATE_FORMAT = inr t ∧ y = tm_year t)
                 ∨ (2025 ≤ 5 ∧ y = 0 ∧ t = Calendar.gmtime_0))) feed_papers.
Proof.
  split; [exact feed_call_eq |].
  exact (paper_dates_agree (scripted [feed]) "best pizza recipe" fresh feed_papers
           feed_call.2 feed_call_eq).
Defined.

(** The feed of four entries holds one date that does not parse. *)
Lemma parse_errors_logged_witness :
  ∃ lines,
    length lines = 1%nat
    ∧ new_events fresh (_fetch_from_arxiv (second_try feed) "best pizza recipe" fresh).2 =
      Log (entry_line Arxiv) :: failed_rounds (arxiv_request "best pizza recipe") lines ++
      [Get (arxiv_request "best pizza recipe");
       Log ("[APISelectionAgent] Error parsing published date 'last week': " +:+
            "time data 'last week' does not match format '%Y-%m-%dT%H:%M:%SZ'")].
Proof.
  destruct (parse_errors_logged (second_try feed) "best pizza recipe" fresh 1 feed)
    as (lines & Hlen & _ & Hd & _).
  - simpl. lia.
  - by apply Runs.second_try_succeeds.
  - exists lines. split; [done |]. rewrite Hd. reflexivity.
Defined.

(** A space-related query stays one inside a sentence. *)
Lemma router_stable_witness :
  is_space_query ("What is the " +:+ "Asteroid belt" +:+ ", exactly?") = true.
Proof.
  by apply (proj1 (router_stable "Asteroid belt") "What is the " ", exactly?").
Defined.

(** Only the search key is set: the other two credentials are the
    placeholders. *)
Lemma requests_carry_credentials_witness :
  let w := mk_world (__init__ only_search_key None) [] in
  new_events w (_fetch_from_google outage "best pizza recipe" w).2 !! 1%nat =
    Some (Get (mk_request "https://www.googleapis.com/customsearch/v1"
                 [("q", PStr "best pizza recipe"); ("key", PStr "k-123");
                  ("cx", PStr "YOUR_GOOGLE_CX"); ("num", PInt 5)])).
Proof.
  exact (proj1 (requests_carry_credentials outage only_search_key None []
                  "best pizza recipe" ltac:(simpl; lia))).
Defined.

End MoreRuns.
